(* Verification of buildscripts/resmokelib/utils/external_suite.py:
   the rewriting of a resmoke suite document for an external system
   under test. *)
From Stdlib Require Import ZArith String Ascii.
From stdpp Require Import gmap strings list fin_maps.

Local Set Warnings "-register-all".

(** * Python values

    A suite is what a YAML/JSON loader produces: None, booleans, integers,
    strings, lists and dicts with string keys.  Dict equality in Python
    ignores insertion order, which is what [gmap] gives.  The document is a
    tree: no object is reachable through two paths, so a nested in-place
    update is an update of the enclosing values. *)

Inductive value : Type :=
  | VNone : value
  | VBool : bool -> value
  | VInt : Z -> value
  | VStr : string -> value
  | VList : list value -> value
  | VDict : gmap string value -> value.

(** Exceptions the module can raise: those that Python raises on a value
    of the wrong kind or on a missing key or index, and the module's own RuntimeError, which
    carries the hook entry interpolated into its message. *)
Inductive exn : Type :=
  | AttributeError : exn
  | TypeError : exn
  | KeyError : exn
  | IndexError : exn
  | RuntimeError : value -> exn.

Inductive result (A : Type) : Type :=
  | Ok : A -> result A
  | Raise : exn -> result A.
Arguments Ok {A} _.
Arguments Raise {A} _.

(** Python truthiness, [bool(v)]. *)
Definition truthy (v : value) : bool :=
  match v with
  | VNone => false
  | VBool b => b
  | VInt n => negb (Z.eqb n 0)
  | VStr s => negb (String.eqb s "")
  | VList l => match l with [] => false | _ => true end
  | VDict m => negb (Nat.eqb (size m) 0)
  end.

(** ** Primitive operations, with the exception Python raises when the
    receiver is of the wrong kind *)

(** [v.get(k, d)] *)
Definition py_get (k : string) (d : value) (v : value) : result value :=
  match v with
  | VDict m => Ok (default d (m !! k))
  | _ => Raise AttributeError
  end.

(** [v.pop(k, None)], giving the receiver after the call.  A list has a
    [pop], but of at most one argument. *)
Definition py_pop (k : string) (v : value) : result value :=
  match v with
  | VDict m => Ok (VDict (delete k m))
  | VList _ => Raise TypeError
  | _ => Raise AttributeError
  end.

(** [v[k]] for a string [k] *)
Definition py_getitem (k : string) (v : value) : result value :=
  match v with
  | VDict m => match m !! k with Some x => Ok x | None => Raise KeyError end
  | _ => Raise TypeError
  end.

(** [v[k] = x] for a string [k], giving the receiver after the call *)
Definition py_setitem (k : string) (x : value) (v : value) : result value :=
  match v with
  | VDict m => Ok (VDict (<[k := x]> m))
  | _ => Raise TypeError
  end.

(** A Python string is a sequence of code points; a [string] here holds
    its UTF-8 encoding, in which a code point is one byte that is not of
    the form 10xxxxxx followed by the bytes of that form that belong to
    it. *)
Definition is_continuation (c : ascii) : bool :=
  match c with
  | Ascii _ _ _ _ _ _ b6 b7 => b7 && negb b6
  end.

(** The continuation bytes a string starts with, and the code points
    after them. *)
Fixpoint split_points (s : string) : string * list string :=
  match s with
  | EmptyString => (EmptyString, [])
  | String c rest =>
      let '(cont, points) := split_points rest in
      if is_continuation c then (String c cont, points)
      else (EmptyString, String c cont :: points)
  end.

(** The code points of a string, each with its encoding.  Bytes 10xxxxxx
    at the start, which no encoding of a Python string has, count as
    one. *)
Definition code_points (s : string) : list string :=
  match split_points s with
  | (EmptyString, points) => points
  | (cont, points) => cont :: points
  end.

(** The one-character strings of a string, as iteration yields them. *)
Definition chars (s : string) : list value :=
  VStr <$> code_points s.

(** [v[0]].  The keys of a dict are strings, so [0] is never one. *)
Definition py_item0 (v : value) : result value :=
  match v with
  | VList l => match l with x :: _ => Ok x | [] => Raise IndexError end
  | VStr s => match chars s with x :: _ => Ok x | [] => Raise IndexError end
  | VDict _ => Raise KeyError
  | _ => Raise TypeError
  end.

(** The elements [for hook in v] runs over. *)
Definition py_iter (v : value) : result (list value) :=
  match v with
  | VList l => Ok l
  | VStr s => Ok (chars s)
  | VDict m => Ok (VStr <$> (map_to_list m).*1)
  | _ => Raise TypeError
  end.

(** [v += s] for a string [s]: concatenation on a string, and on a list
    the extension by the characters of [s]. *)
Definition py_iadd_str (s : string) (v : value) : result value :=
  match v with
  | VStr t => Ok (VStr (String.append t s))
  | VList l => Ok (VList (l ++ chars s))
  | _ => Raise TypeError
  end.

(** [v.append(x)], giving the receiver after the call *)
Definition py_append (x : value) (v : value) : result value :=
  match v with
  | VList l => Ok (VList (l ++ [x]))
  | _ => Raise AttributeError
  end.

(** [v.update({k: x})], giving the receiver after the call *)
Definition py_update1 (k : string) (x : value) (v : value) : result value :=
  match v with
  | VDict m => Ok (VDict (<[k := x]> m))
  | _ => Raise AttributeError
  end.

Definition is_str (v : value) : bool :=
  match v with VStr _ => true | _ => false end.

Definition is_dict (v : value) : bool :=
  match v with VDict _ => true | _ => false end.

(** ** Statements on the suite

    A statement takes the suite object and gives the object as the
    statement leaves it, with [Ok tt] or the exception raised.  The object
    is mutated in place, so what was written before an exception stays. *)

Definition stmt : Type := value -> value * result unit.

Definition seq (c1 c2 : stmt) : stmt :=
  fun suite =>
    match c1 suite with
    | (suite', Ok _) => c2 suite'
    | (suite', Raise e) => (suite', Raise e)
    end.
Declare Scope stmt_scope.
Delimit Scope stmt_scope with stmt.
Notation "c1 ;; c2" := (seq c1 c2)
  (at level 100, c2 at level 200, right associativity) : stmt_scope.

(** Apply a method that mutates its receiver to [suite] itself. *)
Definition on_self (f : value -> result value) : stmt :=
  fun v => match f v with
           | Ok v' => (v', Ok tt)
           | Raise e => (v, Raise e)
           end.

(** [v.setdefault(k1, {}).setdefault(k2, {})...], then [leaf] on the
    object reached.  Each [setdefault] inserts an empty dict where the key
    is missing and goes on with the entry. *)
Fixpoint setdefault_path (path : list string) (leaf : stmt) (v : value)
  : value * result unit :=
  match path with
  | [] => leaf v
  | k :: rest =>
      match v with
      | VDict m =>
          let '(child, r) := setdefault_path rest leaf (default (VDict ∅) (m !! k)) in
          (VDict (<[k := child]> m), r)
      | _ => (v, Raise AttributeError)
      end
  end.

(** [v[k1][k2]...], then [leaf] on the object reached. *)
Fixpoint getitem_path (path : list string) (leaf : stmt) (v : value)
  : value * result unit :=
  match path with
  | [] => leaf v
  | k :: rest =>
      match v with
      | VDict m =>
          match m !! k with
          | Some c =>
              let '(child, r) := getitem_path rest leaf c in
              (VDict (<[k := child]> m), r)
          | None => (v, Raise KeyError)
          end
      | _ => (v, Raise TypeError)
      end
  end.

(** * The module *)

Definition INCOMPATIBLE_HOOKS : list string :=
  [ "CleanEveryN"; "ContinuousStepdown"; "CheckOrphansDeleted" ].

(** [v in INCOMPATIBLE_HOOKS]: only a string equals a string. *)
Definition in_INCOMPATIBLE_HOOKS (v : value) : bool :=
  match v with
  | VStr s => bool_decide (s ∈ INCOMPATIBLE_HOOKS)
  | _ => false
  end.

(** The calls to the logger are left out: the logger is an external
    collaborator whose result the module never reads. *)
Definition delete_archival : stmt :=
  fun suite =>
    (* suite.pop("archive", None) *)
    match py_pop "archive" suite with
    | Raise e => (suite, Raise e)
    | Ok suite =>
        (* suite.get("executor", {}).pop("archive", None) *)
        match suite with
        | VDict m =>
            match m !! "executor" with
            | Some executor =>
                match py_pop "archive" executor with
                | Ok executor' => (VDict (<["executor" := executor']> m), Ok tt)
                | Raise e => (suite, Raise e)
                end
            | None => (suite, Ok tt)   (* the pop is on the fresh default {} *)
            end
        | _ => (suite, Raise AttributeError)
        end
    end.

(** [[hook for hook in hooks if hook["class"] not in INCOMPATIBLE_HOOKS]]:
    the first element on which [hook["class"]] raises ends the
    comprehension. *)
Fixpoint keep_by_class (hooks : list value) : result (list value) :=
  match hooks with
  | [] => Ok []
  | hook :: rest =>
      match py_getitem "class" hook with
      | Raise e => Raise e
      | Ok c =>
          match keep_by_class rest with
          | Raise e => Raise e
          | Ok rest' =>
              Ok (if in_INCOMPATIBLE_HOOKS c then rest' else hook :: rest')
          end
      end
  end.

(** [suite["executor"]["hooks"] = new] *)
Definition set_hooks (new : value) : stmt :=
  getitem_path ["executor"] (on_self (py_setitem "hooks" new)).

Definition make_hooks_compatible : stmt :=
  fun suite =>
    (* suite.get("executor", {}).get("hooks", None) *)
    match py_get "executor" (VDict ∅) suite with
    | Raise e => (suite, Raise e)
    | Ok executor =>
    match py_get "hooks" VNone executor with
    | Raise e => (suite, Raise e)
    | Ok hooks =>
        if truthy hooks then
          match py_item0 hooks with
          | Raise e => (suite, Raise e)
          | Ok hook0 =>
              if is_str hook0 then
                match py_iter hooks with
                | Raise e => (suite, Raise e)
                | Ok l =>
                    set_hooks
                      (VList (VStr "AntithesisLogging"
                              :: filter (fun hook => in_INCOMPATIBLE_HOOKS hook = false) l))
                      suite
                end
              else if is_dict hook0 then
                match py_iter hooks with
                | Raise e => (suite, Raise e)
                | Ok l =>
                    match keep_by_class l with
                    | Raise e => (suite, Raise e)
                    | Ok kept =>
                        set_hooks
                          (VList (VDict {[ "class" := VStr "AntithesisLogging" ]} :: kept))
                          suite
                    end
                end
              else (suite, Raise (RuntimeError hook0))
          end
        else (suite, Ok tt)
    end
    end.

Definition update_test_data : stmt :=
  setdefault_path
    ["executor"; "config"; "shell_options"; "global_vars"; "TestData"]
    (on_self (py_update1 "useActionPermittedFile" (VBool false))).

Definition jsTestLog_noop : string := "jsTestLog = Function.prototype;".

(** [v.setdefault(k, d)] as a statement on [v] (the entry is not used). *)
Definition setdefault_leaf (k : string) (d : value) : stmt :=
  fun v =>
    match v with
    | VDict m => (VDict (<[k := default d (m !! k)]> m), Ok tt)
    | _ => (v, Raise AttributeError)
    end.

(** [v[k] += s] *)
Definition iadd_item (k : string) (s : string) : stmt :=
  fun v =>
    match py_getitem k v with
    | Raise e => (v, Raise e)
    | Ok old =>
        match py_iadd_str s old with
        | Raise e => (v, Raise e)
        | Ok new => on_self (py_setitem k new) v
        end
    end.

Definition update_shell : stmt :=
  (setdefault_path ["executor"; "config"; "shell_options"]
     (setdefault_leaf "eval" (VStr "")) ;;
   getitem_path ["executor"; "config"; "shell_options"]
     (iadd_item "eval" jsTestLog_noop))%stmt.

Definition update_exclude_tags : stmt :=
  (setdefault_path ["selector"] (fun v => (v, Ok tt)) ;;
   fun suite =>
     match py_get "selector" VNone suite with
     | Raise e => (suite, Raise e)
     | Ok selector =>
     match py_get "exclude_with_any_tags" VNone selector with
     | Raise e => (suite, Raise e)
     | Ok tags =>
         if negb (truthy tags) then
           getitem_path ["selector"]
             (on_self (py_setitem "exclude_with_any_tags"
                         (VList [VStr "antithesis_incompatible"]))) suite
         else
           getitem_path ["selector"; "exclude_with_any_tags"]
             (on_self (py_append (VStr "antithesis_incompatible"))) suite
     end
     end)%stmt.

(** The steps of [make_external]; the function returns the suite object
    itself, so its result is the final state. *)
Definition make_external_steps : stmt :=
  (delete_archival ;;
   make_hooks_compatible ;;
   update_test_data ;;
   update_shell ;;
   update_exclude_tags)%stmt.

Definition make_external (suite : value) : value * result value :=
  match make_external_steps suite with
  | (suite', Ok _) => (suite', Ok suite')
  | (suite', Raise e) => (suite', Raise e)
  end.

(** * Reading the document *)

(** The value under a path of keys, if every step is a key of a dict. *)
Fixpoint lookup_path (path : list string) (v : value) : option value :=
  match path with
  | [] => Some v
  | k :: rest =>
      match v with
      | VDict m => m !! k ≫= lookup_path rest
      | _ => None
      end
  end.

(** The shape of the data model along a path: the value is a mapping, and
    so is each entry the path meets, as far as the path exists. *)
Fixpoint mappings_along (path : list string) (v : value) : bool :=
  match v with
  | VDict m =>
      match path with
      | [] => true
      | k :: rest =>
          match m !! k with
          | Some c => mappings_along rest c
          | None => true
          end
      end
  | _ => false
  end.

(** A field that is missing or falsy: [not d.get(k)]. *)
Definition absent_or_falsy (o : option value) : Prop :=
  match o with
  | None => True
  | Some v => truthy v = false
  end.

(** * Names for the statements *)

(** A suite with both archive keys. *)
Definition C3_doc : gmap string value :=
  {[ "archive" := VBool true;
     "executor" := VDict {[ "archive" := VBool true; "hooks" := VList [] ]} ]}.

(** [suite["executor"]["hooks"]] replaced by [new]. *)
Definition with_hooks (new : value) (m e : gmap string value) : value :=
  VDict (<["executor" := VDict (<["hooks" := new]> e)]> m).

(** A structured hook is incompatible when its [class] is one of the
    names of INCOMPATIBLE_HOOKS. *)
Definition class_incompatible (d : gmap string value) : Prop :=
  ∃ s, d !! "class" = Some (VStr s) ∧ s ∈ INCOMPATIBLE_HOOKS.

#[global] Instance class_incompatible_dec d : Decision (class_incompatible d).
Proof.
  unfold class_incompatible.
  destruct (d !! "class") as [c|]; [|right; intros (s & ? & _); discriminate].
  destruct c as [| | |s| |]; try (right; intros (s' & ? & _); discriminate).
  destruct (decide (s ∈ INCOMPATIBLE_HOOKS)) as [Hs|Hs].
  - left. eauto.
  - right. intros (s' & [= ->] & ?). done.
Defined.

(** A suite that has only [executor.hooks]. *)
Definition suite_of_hooks (hooks : list value) : value :=
  VDict {[ "executor" := VDict {[ "hooks" := VList hooks ]} ]}.

(** One plain hook followed by one structured hook. *)
Definition mixed_hooks : list value :=
  [ VStr "X"; VDict {[ "class" := VStr "Y" ]} ].

(** A suite with both archive keys whose first hook is [None]. *)
Definition C7_doc : value :=
  VDict {[ "archive" := VBool true;
           "executor" := VDict {[ "archive" := VBool true;
                                  "hooks" := VList [VNone] ]} ]}.

(** Structured hooks with a plain one before a mapping without [class]. *)
Definition hooks_with_string_between : list value :=
  [ VDict {[ "class" := VStr "A" ]}; VStr "x"; VDict ∅ ].

(** The path update_test_data follows, and what it does at its end. *)
Definition TestData_path : list string :=
  ["executor"; "config"; "shell_options"; "global_vars"; "TestData"].

Definition set_useActionPermittedFile : stmt :=
  on_self (py_update1 "useActionPermittedFile" (VBool false)).

(** A suite whose [TestData] has the field set to True and another
    field, and the same suite with the field set to False. *)
Definition C4_doc : value :=
  VDict {[ "executor" :=
    VDict {[ "config" :=
      VDict {[ "shell_options" :=
        VDict {[ "global_vars" :=
          VDict {[ "TestData" :=
            VDict {[ "useActionPermittedFile" := VBool true;
                     "other" := VInt 1 ]} ]} ]} ]} ]} ]}.

Definition C4_doc_after : value :=
  VDict {[ "executor" :=
    VDict {[ "config" :=
      VDict {[ "shell_options" :=
        VDict {[ "global_vars" :=
          VDict {[ "TestData" :=
            VDict {[ "useActionPermittedFile" := VBool false;
                     "other" := VInt 1 ]} ]} ]} ]} ]} ]}.

(** The path update_shell follows, and the path of [eval]. *)
Definition shell_options_path : list string :=
  ["executor"; "config"; "shell_options"].

Definition eval_path : list string := shell_options_path ++ ["eval"].

(** What update_shell does to [shell_options]. *)
Definition append_eval : stmt :=
  seq (setdefault_leaf "eval" (VStr "")) (iadd_item "eval" jsTestLog_noop).

(** The path of the exclusion tags. *)
Definition tags_path : list string := ["selector"; "exclude_with_any_tags"].

(** The [selector] mapping of a suite, empty when there is none. *)
Definition selector_of (m : gmap string value) : gmap string value :=
  match m !! "selector" with
  | Some (VDict sel) => sel
  | _ => ∅
  end.

(** [suite["selector"]["exclude_with_any_tags"]] replaced by [new]. *)
Definition with_tags (new : value) (m : gmap string value) : value :=
  VDict (<["selector" := VDict (<["exclude_with_any_tags" := new]> (selector_of m))]> m).



(** The suite of the end-to-end example, before and after. *)
Definition example_suite : value :=
  VDict {[ "archive" := VBool true;
           "executor" := VDict {[ "hooks" := VList [VStr "CleanEveryN"];
                                  "archive" := VBool true ]} ]}.

Definition example_suite_external : value :=
  VDict {[ "executor" :=
             VDict {[ "hooks" := VList [VStr "AntithesisLogging"];
                      "config" :=
                        VDict {[ "shell_options" :=
                          VDict {[ "eval" := VStr "jsTestLog = Function.prototype;";
                                   "global_vars" :=
                                     VDict {[ "TestData" :=
                                       VDict {[ "useActionPermittedFile" := VBool false ]} ]} ]} ]} ]};
           "selector" :=
             VDict {[ "exclude_with_any_tags" := VList [VStr "antithesis_incompatible"] ]} ]}.

(** Hooks as the data model has them: nothing (a falsy value), a list of
    plain names, or a list of mappings that each have a [class]. *)
Definition hooks_of_data_model (h : value) : Prop :=
  truthy h = false
  ∨ (∃ names : list string, h = VList (VStr <$> names))
  ∨ (∃ ds : list (gmap string value),
       h = VList (VDict <$> ds) ∧ Forall (fun d => is_Some (d !! "class")) ds).

(** A suite of the data model: mappings along the path to [TestData], a
    [selector] that is a mapping, and, where they exist, an [eval] that is
    a string, exclusion tags that are a list or falsy, and hooks as above. *)
Definition data_model (suite : value) : Prop :=
  mappings_along TestData_path suite = true
  ∧ mappings_along ["selector"] suite = true
  ∧ (∀ e, lookup_path eval_path suite = Some e → is_str e = true)
  ∧ (∀ t, lookup_path tags_path suite = Some t →
          truthy t = false ∨ ∃ l, t = VList l)
  ∧ (∀ h, lookup_path ["executor"; "hooks"] suite = Some h → hooks_of_data_model h).

Definition is_list (v : value) : bool :=
  match v with VList _ => true | _ => false end.

(** The exclusion tags a suite comes with: the list under
    [selector.exclude_with_any_tags], or no tags when there is none. *)
Definition tags_of (suite : value) : list value :=
  match lookup_path tags_path suite with
  | Some (VList l) => l
  | _ => []
  end.

(** The [eval] string a suite comes with, empty when there is none. *)
Definition eval_of (suite : value) : string :=
  match lookup_path eval_path suite with
  | Some (VStr old) => old
  | _ => ""
  end.

(** A string that holds one code point at most: every byte after the
    first is a continuation byte. *)
Definition single_point (p : string) : bool :=
  match p with
  | EmptyString => true
  | String _ t => forallb is_continuation (String.list_ascii_of_string t)
  end.

(** * Basic facts *)

Lemma split_points_spec s :
  forallb is_continuation (String.list_ascii_of_string (split_points s).1) = true
  ∧ Forall (fun p => single_point p = true) (split_points s).2.
Proof.
  induction s as [|c s [IHc IHp]]; simpl; [by split|].
  destruct (split_points s) as [cont points]. simpl in *.
  destruct (is_continuation c) eqn:Hc; simpl.
  - split; [by rewrite Hc | done].
  - split; [done|]. by constructor.
Qed.

(** Each code point of a string is one code point. *)
Lemma code_points_single s :
  Forall (fun p => single_point p = true) (code_points s).
Proof.
  unfold code_points. destruct (split_points_spec s) as [Hc Hp].
  destruct (split_points s) as [cont points]. simpl in *.
  destruct cont as [|c cont]; [done|]. constructor; [|done].
  simpl in *. by apply andb_true_iff in Hc as [_ ?].
Qed.

(** A string that is not empty has a first code point. *)
Lemma code_points_cons c s :
  ∃ p tl, code_points (String c s) = p :: tl.
Proof.
  unfold code_points. simpl. destruct (split_points s) as [cont points].
  destruct (is_continuation c); eauto.
Qed.

Lemma chars_cons c s :
  ∃ p tl, chars (String c s) = VStr p :: tl.
Proof.
  unfold chars. destruct (code_points_cons c s) as (p & tl & ->). eauto.
Qed.

Lemma lookup_path_app p q v :
  lookup_path (p ++ q) v = lookup_path p v ≫= lookup_path q.
Proof.
  revert v. induction p as [|k p IH]; intros v; simpl; [done|].
  destruct v as [| | | | |m]; try done.
  destruct (m !! k) as [c|]; simpl; [apply IH | done].
Qed.

Lemma lookup_path_1 k (m : gmap string value) :
  lookup_path [k] (VDict m) = m !! k.
Proof. simpl. by destruct (m !! k). Qed.

Lemma lookup_path_empty k p : lookup_path (k :: p) (VDict ∅) = None.
Proof. simpl. by rewrite lookup_empty. Qed.

Lemma mappings_along_dict path v :
  mappings_along path v = true → ∃ m, v = VDict m.
Proof. destruct v; destruct path; simpl; try discriminate; eauto. Qed.

(** * delete_archival *)

Lemma delete_archival_dict (m : gmap string value) :
  delete_archival (VDict m) =
    match delete "archive" m !! "executor" with
    | Some executor =>
        match py_pop "archive" executor with
        | Ok executor' =>
            (VDict (<["executor" := executor']> (delete "archive" m)), Ok tt)
        | Raise e => (VDict (delete "archive" m), Raise e)
        end
    | None => (VDict (delete "archive" m), Ok tt)
    end.
Proof. reflexivity. Qed.

(** The suite as [delete_archival] leaves it, when [executor] is missing
    or a mapping. *)
Lemma delete_archival_ok (m : gmap string value) :
  mappings_along ["executor"] (VDict m) = true →
  ∃ m', delete_archival (VDict m) = (VDict m', Ok tt)
        ∧ m' !! "archive" = None
        ∧ lookup_path ["executor"; "archive"] (VDict m') = None
        ∧ (∀ k, k ≠ "archive" → k ≠ "executor" → m' !! k = m !! k)
        ∧ (∀ k, k ≠ "archive" →
             lookup_path ["executor"; k] (VDict m') = lookup_path ["executor"; k] (VDict m)).
Proof.
  intros Hshape. rewrite delete_archival_dict.
  simpl in Hshape. rewrite lookup_delete_ne by done.
  destruct (m !! "executor") as [ex|] eqn:Hex.
  - destruct ex as [| | | | |e]; try discriminate. simpl.
    eexists. split; [reflexivity|]. repeat split.
    + rewrite lookup_insert_ne by done. apply lookup_delete_eq.
    + simpl. rewrite lookup_insert_eq. simpl. rewrite lookup_delete_eq. done.
    + intros k Hk1 Hk2. rewrite lookup_insert_ne by done. by rewrite lookup_delete_ne.
    + intros k Hk. simpl. rewrite lookup_insert_eq, Hex. simpl.
      by rewrite lookup_delete_ne.
  - eexists. split; [reflexivity|]. repeat split.
    + apply lookup_delete_eq.
    + simpl. rewrite lookup_delete_ne by done. by rewrite Hex.
    + intros k Hk1 Hk2. by rewrite lookup_delete_ne.
    + intros k Hk. simpl. rewrite lookup_delete_ne by done. by rewrite Hex.
Qed.

(** C3.  On a document whose [executor] is missing or a mapping,
    delete_archival raises nothing and leaves neither the top-level
    [archive] key nor [executor.archive]; every other key keeps its value;
    when both keys were already absent the document is unchanged; and a
    second application changes nothing more. *)
Theorem C3_delete_archival (m : gmap string value) :
  mappings_along ["executor"] (VDict m) = true →
  ∃ m', delete_archival (VDict m) = (VDict m', Ok tt)
        ∧ m' !! "archive" = None
        ∧ lookup_path ["executor"; "archive"] (VDict m') = None
        ∧ (∀ k, k ≠ "archive" → k ≠ "executor" → m' !! k = m !! k)
        ∧ (∀ k, k ≠ "archive" →
             lookup_path ["executor"; k] (VDict m') = lookup_path ["executor"; k] (VDict m))
        ∧ (m !! "archive" = None →
           lookup_path ["executor"; "archive"] (VDict m) = None → m' = m)
        ∧ delete_archival (VDict m') = (VDict m', Ok tt).
Proof.
  intros Hshape. rewrite delete_archival_dict.
  simpl in Hshape. rewrite lookup_delete_ne by done.
  destruct (m !! "executor") as [ex|] eqn:Hex.
  - destruct ex as [| | | | |e]; try discriminate. simpl.
    eexists. split; [reflexivity|]. repeat split.
    + rewrite lookup_insert_ne by done. apply lookup_delete_eq.
    + rewrite lookup_insert_eq. simpl. by rewrite lookup_delete_eq.
    + intros k Hk1 Hk2. rewrite lookup_insert_ne by done. by rewrite lookup_delete_ne.
    + intros k Hk. rewrite lookup_insert_eq, Hex. simpl. by rewrite lookup_delete_ne.
    + intros Ha He. rewrite Hex in He. simpl in He.
      destruct (e !! "archive") eqn:Hea; [done|].
      rewrite (delete_id e), (delete_id m) by done. by apply insert_id.
    + rewrite delete_archival_dict.
      rewrite delete_insert_ne by done. rewrite delete_delete_eq.
      rewrite lookup_insert_eq. simpl.
      by rewrite delete_delete_eq, insert_insert_eq.
  - eexists. split; [reflexivity|]. repeat split.
    + apply lookup_delete_eq.
    + simpl. rewrite lookup_delete_ne by done. by rewrite Hex.
    + intros k Hk1 Hk2. by rewrite lookup_delete_ne.
    + intros k Hk. simpl. rewrite lookup_delete_ne by done. by rewrite Hex.
    + intros Ha _. by apply delete_id.
    + rewrite delete_archival_dict, delete_delete_eq.
      rewrite lookup_delete_ne by done. by rewrite Hex.
Qed.

Lemma C3_delete_archival_witness :
  mappings_along ["executor"] (VDict C3_doc) = true
  ∧ ∃ m', delete_archival (VDict C3_doc) = (VDict m', Ok tt)
          ∧ m' !! "archive" = None
          ∧ lookup_path ["executor"; "archive"] (VDict m') = None.
Proof.
  split; [reflexivity|].
  destruct (C3_delete_archival C3_doc eq_refl) as (m' & H1 & H2 & H3 & _).
  exists m'. auto.
Defined.

(** * make_hooks_compatible *)

Lemma set_hooks_dict new (m e : gmap string value) :
  m !! "executor" = Some (VDict e) →
  set_hooks new (VDict m) = (with_hooks new m e, Ok tt).
Proof. intros Hex. unfold set_hooks. simpl. by rewrite Hex. Qed.

(** The function on a suite whose hooks are a non-empty list: the branch is
    chosen by the first element alone. *)
Lemma make_hooks_compatible_list (m e : gmap string value) h0 rest :
  m !! "executor" = Some (VDict e) →
  e !! "hooks" = Some (VList (h0 :: rest)) →
  make_hooks_compatible (VDict m) =
    if is_str h0 then
      (with_hooks
         (VList (VStr "AntithesisLogging"
                 :: filter (fun hook => in_INCOMPATIBLE_HOOKS hook = false) (h0 :: rest)))
         m e, Ok tt)
    else if is_dict h0 then
      match keep_by_class (h0 :: rest) with
      | Ok kept =>
          (with_hooks (VList (VDict {[ "class" := VStr "AntithesisLogging" ]} :: kept)) m e,
           Ok tt)
      | Raise x => (VDict m, Raise x)
      end
    else (VDict m, Raise (RuntimeError h0)).
Proof.
  intros Hex Hh. unfold make_hooks_compatible, py_get.
  rewrite Hex. unfold default, from_option, id. rewrite Hh.
  unfold truthy, py_item0, py_iter.
  destruct (is_str h0); [by rewrite (set_hooks_dict _ m e)|].
  destruct (is_dict h0); [|done].
  destruct (keep_by_class (h0 :: rest)); [|done].
  by rewrite (set_hooks_dict _ m e).
Qed.

(** The function on a suite whose hooks are one string: the string is
    iterated like a list, code point by code point. *)
Lemma make_hooks_compatible_str (m e : gmap string value) s :
  m !! "executor" = Some (VDict e) →
  e !! "hooks" = Some (VStr s) →
  make_hooks_compatible (VDict m) =
    if String.eqb s "" then (VDict m, Ok tt)
    else
      (with_hooks
         (VList (VStr "AntithesisLogging"
                 :: filter (fun hook => in_INCOMPATIBLE_HOOKS hook = false) (chars s)))
         m e, Ok tt).
Proof.
  intros Hex Hh. unfold make_hooks_compatible, py_get.
  rewrite Hex. unfold default, from_option, id. rewrite Hh.
  unfold truthy. destruct s as [|c s]; [done|].
  cbn [String.eqb negb]. unfold py_item0, py_iter.
  destruct (chars_cons c s) as (p & tl & Hc). rewrite Hc. cbn [is_str].
  apply (set_hooks_dict _ m e Hex).
Qed.

(** Whatever it does, an exception of make_hooks_compatible leaves the
    suite as it was. *)
Lemma make_hooks_compatible_raise suite suite' x :
  make_hooks_compatible suite = (suite', Raise x) → suite' = suite.
Proof.
  unfold make_hooks_compatible, set_hooks.
  destruct (py_get "executor" (VDict ∅) suite) as [ex|]; [|congruence].
  destruct (py_get "hooks" VNone ex) as [hooks|]; [|congruence].
  destruct (truthy hooks); [|congruence].
  destruct (py_item0 hooks) as [h0|]; [|congruence].
  assert (Hset : ∀ new, getitem_path ["executor"]
                          (on_self (py_setitem "hooks" new)) suite = (suite', Raise x)
                        → suite' = suite).
  { intros new. simpl. destruct suite as [| | | | |m]; try congruence.
    destruct (m !! "executor") as [c|] eqn:Hex; [|congruence].
    unfold on_self. destruct (py_setitem "hooks" new c); simpl; [congruence|].
    intros [= <- _]. by rewrite insert_id. }
  destruct (is_str h0).
  { destruct (py_iter hooks); [apply Hset | congruence]. }
  destruct (is_dict h0); [|congruence].
  destruct (py_iter hooks) as [l|]; [|congruence].
  destruct (keep_by_class l); [apply Hset | congruence].
Qed.

(** C8.  On a document whose [executor] is missing or a mapping, and in
    which [executor.hooks] is missing or falsy (the empty list among
    them), make_hooks_compatible returns normally and the document is the
    one it was given: no [executor] and no [hooks] entry is created. *)
Theorem C8_no_hooks_unchanged (m : gmap string value) :
  mappings_along ["executor"] (VDict m) = true →
  absent_or_falsy (lookup_path ["executor"; "hooks"] (VDict m)) →
  make_hooks_compatible (VDict m) = (VDict m, Ok tt).
Proof.
  intros Hshape Hno. unfold make_hooks_compatible. simpl in *.
  destruct (m !! "executor") as [ex|]; simpl in *.
  - destruct ex as [| | | | |e]; try discriminate. simpl in *.
    destruct (e !! "hooks") as [h|]; simpl in *; [by rewrite Hno | done].
  - by rewrite lookup_empty.
Qed.

Lemma C8_no_hooks_unchanged_witness :
  make_hooks_compatible (VDict {[ "executor" := VDict {[ "hooks" := VList [] ]} ]})
  = (VDict {[ "executor" := VDict {[ "hooks" := VList [] ]} ]}, Ok tt)
  ∧ make_hooks_compatible (VDict ∅) = (VDict ∅, Ok tt).
Proof.
  split.
  - apply (C8_no_hooks_unchanged {[ "executor" := VDict {[ "hooks" := VList [] ]} ]});
      reflexivity.
  - apply (C8_no_hooks_unchanged ∅); [reflexivity | exact I].
Defined.

(** What membership in INCOMPATIBLE_HOOKS decides. *)
Lemma in_INCOMPATIBLE_HOOKS_spec v :
  in_INCOMPATIBLE_HOOKS v = true ↔ ∃ s, v = VStr s ∧ s ∈ INCOMPATIBLE_HOOKS.
Proof.
  split.
  - destruct v as [| | |s| |]; simpl; try discriminate.
    intros H%bool_decide_eq_true. eauto.
  - intros (s & -> & Hs). simpl. by apply bool_decide_eq_true.
Qed.

Lemma filter_plain_hooks (names : list string) :
  filter (fun hook => in_INCOMPATIBLE_HOOKS hook = false) (VStr <$> names)
  = VStr <$> filter (fun n => n ∉ INCOMPATIBLE_HOOKS) names.
Proof.
  induction names as [|n names IH]; [done|].
  rewrite fmap_cons, !filter_cons, IH. simpl.
  destruct (decide (n ∈ INCOMPATIBLE_HOOKS)) as [Hn|Hn].
  - rewrite (bool_decide_eq_true_2 _ Hn).
    rewrite decide_False by done. rewrite decide_False by (intros ?; done). done.
  - rewrite (bool_decide_eq_false_2 _ Hn).
    rewrite decide_True by done. by rewrite decide_True.
Qed.

Lemma keep_by_class_structured (ds : list (gmap string value)) :
  Forall (fun d => is_Some (d !! "class")) ds →
  keep_by_class (VDict <$> ds)
  = Ok (VDict <$> filter (fun d => ¬ class_incompatible d) ds).
Proof.
  induction 1 as [|d ds [c Hc] _ IH]; [done|].
  rewrite fmap_cons. simpl. rewrite Hc, IH, filter_cons.
  destruct (in_INCOMPATIBLE_HOOKS c) eqn:Hin.
  - apply in_INCOMPATIBLE_HOOKS_spec in Hin as (s & -> & Hs).
    rewrite decide_False; [done|]. intros Hn. apply Hn. exists s. done.
  - rewrite decide_True; [done|]. intros (s & Hs & Hmem).
    rewrite Hc in Hs. injection Hs as ->.
    simpl in Hin. apply bool_decide_eq_false in Hin. done.
Qed.

(** C2.  When [executor.hooks] is a non-empty list of plain strings, it
    becomes "AntithesisLogging" followed by the names that are not in
    INCOMPATIBLE_HOOKS, in their order; when it is a non-empty list of
    mappings that each have a [class], it becomes the mapping
    [{"class": "AntithesisLogging"}] followed by the mappings whose class
    is not a name of INCOMPATIBLE_HOOKS, in their order.  Nothing else in
    the document changes and nothing is raised.  The two lists of the
    specification are instances. *)
Theorem C2_hooks_rewritten :
  (∀ (m e : gmap string value) (names : list string),
     m !! "executor" = Some (VDict e) →
     e !! "hooks" = Some (VList (VStr <$> names)) →
     names ≠ [] →
     make_hooks_compatible (VDict m) =
       (with_hooks
          (VList (VStr <$> "AntithesisLogging"
                           :: filter (fun n => n ∉ INCOMPATIBLE_HOOKS) names))
          m e, Ok tt))
  ∧ (∀ (m e : gmap string value) (ds : list (gmap string value)),
       m !! "executor" = Some (VDict e) →
       e !! "hooks" = Some (VList (VDict <$> ds)) →
       ds ≠ [] →
       Forall (fun d => is_Some (d !! "class")) ds →
       make_hooks_compatible (VDict m) =
         (with_hooks
            (VList (VDict <$> {[ "class" := VStr "AntithesisLogging" ]}
                              :: filter (fun d => ¬ class_incompatible d) ds))
            m e, Ok tt))
  ∧ make_hooks_compatible
      (VDict {[ "executor" :=
                  VDict {[ "hooks" := VList [VStr "CleanEveryN"; VStr "X";
                                             VStr "ContinuousStepdown"] ]} ]})
    = (VDict {[ "executor" :=
                  VDict {[ "hooks" := VList [VStr "AntithesisLogging"; VStr "X"] ]} ]},
       Ok tt)
  ∧ make_hooks_compatible
      (VDict {[ "executor" :=
                  VDict {[ "hooks" :=
                             VList [VDict {[ "class" := VStr "CheckOrphansDeleted" ]};
                                    VDict {[ "class" := VStr "Y" ]}] ]} ]})
    = (VDict {[ "executor" :=
                  VDict {[ "hooks" :=
                             VList [VDict {[ "class" := VStr "AntithesisLogging" ]};
                                    VDict {[ "class" := VStr "Y" ]}] ]} ]},
       Ok tt).
Proof.
  split; [|split; [|split]].
  - intros m e [|n names] Hex Hh Hne; [done|].
    rewrite (make_hooks_compatible_list m e (VStr n) (fmap (M:=list) VStr names) Hex Hh).
    cbn [is_str].
    change (VStr n :: (VStr <$> names)) with (VStr <$> n :: names).
    by rewrite filter_plain_hooks.
  - intros m e [|d ds] Hex Hh Hne Hcls; [done|].
    rewrite (make_hooks_compatible_list m e (VDict d) (fmap (M:=list) VDict ds) Hex Hh).
    cbn [is_str is_dict].
    change (VDict d :: (VDict <$> ds)) with (VDict <$> d :: ds).
    by rewrite keep_by_class_structured.
  - vm_compute. reflexivity.
  - vm_compute. reflexivity.
Qed.

Lemma C2_hooks_rewritten_witness :
  make_hooks_compatible
    (VDict {[ "executor" := VDict {[ "hooks" := VList [VStr "A"; VStr "CleanEveryN"] ]} ]})
  = (with_hooks
       (VList (VStr <$> "AntithesisLogging"
                        :: filter (fun n => n ∉ INCOMPATIBLE_HOOKS) ["A"; "CleanEveryN"]))
       {[ "executor" := VDict {[ "hooks" := VList [VStr "A"; VStr "CleanEveryN"] ]} ]}
       {[ "hooks" := VList [VStr "A"; VStr "CleanEveryN"] ]}, Ok tt)
  ∧ make_hooks_compatible
      (VDict {[ "executor" := VDict {[ "hooks" := VList [VDict {[ "class" := VInt 1 ]}] ]} ]})
    = (with_hooks
         (VList (VDict <$> {[ "class" := VStr "AntithesisLogging" ]}
                           :: filter (fun d => ¬ class_incompatible d) [ {[ "class" := VInt 1 ]} ]))
         {[ "executor" := VDict {[ "hooks" := VList [VDict {[ "class" := VInt 1 ]}] ]} ]}
         {[ "hooks" := VList [VDict {[ "class" := VInt 1 ]}] ]}, Ok tt).
Proof.
  split.
  - apply (proj1 C2_hooks_rewritten
             {[ "executor" := VDict {[ "hooks" := VList [VStr "A"; VStr "CleanEveryN"] ]} ]}
             {[ "hooks" := VList [VStr "A"; VStr "CleanEveryN"] ]}
             ["A"; "CleanEveryN"]); [reflexivity | reflexivity | discriminate].
  - apply (proj1 (proj2 C2_hooks_rewritten)
             {[ "executor" := VDict {[ "hooks" := VList [VDict {[ "class" := VInt 1 ]}] ]} ]}
             {[ "hooks" := VList [VDict {[ "class" := VInt 1 ]}] ]}
             [ {[ "class" := VInt 1 ]} ]); [reflexivity | reflexivity | discriminate |].
    repeat constructor. exists (VInt 1). reflexivity.
Defined.

(** The comprehension over structured hooks raises only what
    [hook["class"]] raises. *)
Lemma keep_by_class_raise l x :
  keep_by_class l = Raise x → x = KeyError ∨ x = TypeError.
Proof.
  induction l as [|h l IH]; simpl; [discriminate|].
  destruct (py_getitem "class" h) as [c|y] eqn:Hget.
  - destruct (keep_by_class l); [discriminate|]. intros [= <-]. by apply IH.
  - intros [= <-]. destruct h as [| | | | |d]; simpl in Hget; try (right; congruence).
    destruct (d !! "class"); [discriminate|]. left. congruence.
Qed.

(** The RuntimeError is raised only on a non-empty list of hooks whose
    first element is neither a string nor a mapping, and it carries that
    element. *)
Lemma make_hooks_compatible_RuntimeError_inv suite suite' v :
  make_hooks_compatible suite = (suite', Raise (RuntimeError v)) →
  ∃ (m e : gmap string value) rest,
    suite = VDict m ∧ m !! "executor" = Some (VDict e)
    ∧ e !! "hooks" = Some (VList (v :: rest))
    ∧ is_str v = false ∧ is_dict v = false.
Proof.
  destruct suite as [| | | | |m]; try (by unfold make_hooks_compatible; simpl).
  destruct (m !! "executor") as [ex|] eqn:Hex.
  2:{ unfold make_hooks_compatible. simpl. rewrite Hex. simpl.
      rewrite lookup_empty. simpl. discriminate. }
  destruct ex as [| | | | |e];
    try (by unfold make_hooks_compatible; simpl; rewrite Hex; simpl).
  destruct (e !! "hooks") as [h|] eqn:Hh.
  2:{ unfold make_hooks_compatible. simpl. rewrite Hex. simpl. rewrite Hh.
      simpl. discriminate. }
  destruct h as [|b|n|s|l|d].
  1-3,6: unfold make_hooks_compatible; simpl; rewrite Hex; simpl; rewrite Hh; simpl.
  - discriminate.
  - destruct b; discriminate.
  - destruct (negb (Z.eqb n 0)); discriminate.
  - destruct (negb (Nat.eqb (size d) 0)); discriminate.
  - rewrite (make_hooks_compatible_str m e s Hex Hh).
    destruct (String.eqb s ""); discriminate.
  - destruct l as [|h0 rest].
    { unfold make_hooks_compatible. simpl. rewrite Hex. simpl. rewrite Hh.
      simpl. discriminate. }
    rewrite (make_hooks_compatible_list m e h0 rest Hex Hh).
    destruct (is_str h0) eqn:Hs; [discriminate|].
    destruct (is_dict h0) eqn:Hd.
    + destruct (keep_by_class (h0 :: rest)) eqn:Hk; [discriminate|].
      intros [= _ ->]. apply keep_by_class_raise in Hk as [?|?]; discriminate.
    + intros [= _ ->]. exists m, e, rest. done.
Qed.

(** delete_archival does not touch [executor.hooks]. *)
Lemma delete_archival_hooks (m e : gmap string value) hooks :
  m !! "executor" = Some (VDict e) →
  e !! "hooks" = Some hooks →
  ∃ (m' e' : gmap string value),
    delete_archival (VDict m) = (VDict m', Ok tt)
    ∧ m' !! "executor" = Some (VDict e') ∧ e' !! "hooks" = Some hooks.
Proof.
  intros Hex Hh. rewrite delete_archival_dict, lookup_delete_ne, Hex by done.
  simpl. eexists _, _. split; [reflexivity|].
  rewrite lookup_insert_eq. split; [reflexivity|]. by rewrite lookup_delete_ne.
Qed.

Lemma make_external_raise suite s1 s2 x :
  delete_archival suite = (s1, Ok tt) →
  make_hooks_compatible s1 = (s2, Raise x) →
  make_external suite = (s1, Raise x).
Proof.
  intros Hd Hm. rewrite (make_hooks_compatible_raise _ _ _ Hm) in Hm.
  unfold make_external, make_external_steps, seq. by rewrite Hd, Hm.
Qed.

(** C1, as stated, fails: on a list of one string followed by one mapping,
    which is neither all strings nor all mappings with a [class],
    make_hooks_compatible raises nothing, keeps both entries behind the
    logging hook, and make_external runs every later step. *)
Lemma C1_counterexample :
  ¬ Forall (fun h => is_str h = true) mixed_hooks
  ∧ ¬ Forall (fun h => ∃ d : gmap string value, h = VDict d ∧ is_Some (d !! "class"))
        mixed_hooks
  ∧ make_hooks_compatible (suite_of_hooks mixed_hooks)
    = (suite_of_hooks (VStr "AntithesisLogging" :: mixed_hooks), Ok tt)
  ∧ ∃ s, make_external (suite_of_hooks mixed_hooks) = (s, Ok s)
         ∧ lookup_path ["selector"; "exclude_with_any_tags"] s
           = Some (VList [VStr "antithesis_incompatible"])
         ∧ lookup_path ["executor"; "config"; "shell_options"; "eval"] s
           = Some (VStr jsTestLog_noop).
Proof.
  split; [|split; [|split]].
  - intros H. apply Forall_cons_1 in H as [_ H].
    apply Forall_cons_1 in H as [H _]. discriminate.
  - intros H. apply Forall_cons_1 in H as [(d & H & _) _]. discriminate.
  - vm_compute. reflexivity.
  - eexists. split; [vm_compute; reflexivity|].
    split; vm_compute; reflexivity.
Qed.

(** C1, amended.  On a non-empty list of hooks, the unsupported-shape
    RuntimeError is raised exactly when the first element is neither a
    string nor a mapping; it carries that element, the suite is left as
    make_hooks_compatible found it, and make_external stops there with
    the same error: the suite is the one delete_archival produced, so
    update_test_data, update_shell and update_exclude_tags were not
    applied.  When the first element is a string or a mapping, no
    RuntimeError is raised, whatever the other elements are. *)
Theorem C1_unsupported_shape (m e : gmap string value) h0 rest :
  m !! "executor" = Some (VDict e) →
  e !! "hooks" = Some (VList (h0 :: rest)) →
  (is_str h0 = false → is_dict h0 = false →
     make_hooks_compatible (VDict m) = (VDict m, Raise (RuntimeError h0))
     ∧ ∃ s, delete_archival (VDict m) = (s, Ok tt)
            ∧ make_external (VDict m) = (s, Raise (RuntimeError h0)))
  ∧ (is_str h0 = true ∨ is_dict h0 = true →
     ∀ v, (make_hooks_compatible (VDict m)).2 ≠ Raise (RuntimeError v)).
Proof.
  intros Hex Hh. split.
  - intros Hs Hd. split.
    + by rewrite (make_hooks_compatible_list m e h0 rest Hex Hh), Hs, Hd.
    + destruct (delete_archival_hooks m e _ Hex Hh) as (m' & e' & Hdel & Hex' & Hh').
      exists (VDict m'). split; [done|].
      apply (make_external_raise _ _ (VDict m') _ Hdel).
      by rewrite (make_hooks_compatible_list m' e' h0 rest Hex' Hh'), Hs, Hd.
  - intros Hsd v Hr.
    destruct (make_hooks_compatible (VDict m)) as [s' r] eqn:Hm. simpl in Hr. subst r.
    apply make_hooks_compatible_RuntimeError_inv in Hm
      as (m0 & e0 & rest0 & [= <-] & Hex0 & Hh0 & Hs & Hd).
    rewrite Hex in Hex0. injection Hex0 as <-.
    rewrite Hh in Hh0. injection Hh0 as <- <-.
    destruct Hsd; congruence.
Qed.

Lemma C1_unsupported_shape_witness :
  make_hooks_compatible (suite_of_hooks [VInt 3; VStr "X"])
  = (suite_of_hooks [VInt 3; VStr "X"], Raise (RuntimeError (VInt 3)))
  ∧ ∀ v, (make_hooks_compatible (suite_of_hooks mixed_hooks)).2 ≠ Raise (RuntimeError v).
Proof.
  split.
  - apply (C1_unsupported_shape
             {[ "executor" := VDict {[ "hooks" := VList [VInt 3; VStr "X"] ]} ]}
             {[ "hooks" := VList [VInt 3; VStr "X"] ]} (VInt 3) [VStr "X"]);
      reflexivity.
  - apply (C1_unsupported_shape
             {[ "executor" := VDict {[ "hooks" := VList mixed_hooks ]} ]}
             {[ "hooks" := VList mixed_hooks ]}
             (VStr "X") [VDict {[ "class" := VStr "Y" ]}]);
      [reflexivity | reflexivity | left; reflexivity].
Defined.

(** C7.  Whenever make_hooks_compatible raises its RuntimeError on a
    suite, make_external raises the same error to its caller and leaves
    the suite as delete_archival made it: [archive] and
    [executor.archive] are gone and every other entry of the suite and of
    [executor] is as it was, so none of update_test_data, update_shell and
    update_exclude_tags was applied.  The call inside make_external, on
    the suite without its archive keys, raises the same error. *)
Theorem C7_not_atomic suite suite' v :
  make_hooks_compatible suite = (suite', Raise (RuntimeError v)) →
  ∃ m m' : gmap string value,
    suite = VDict m
    ∧ delete_archival suite = (VDict m', Ok tt)
    ∧ make_hooks_compatible (VDict m') = (VDict m', Raise (RuntimeError v))
    ∧ make_external suite = (VDict m', Raise (RuntimeError v))
    ∧ m' !! "archive" = None
    ∧ lookup_path ["executor"; "archive"] (VDict m') = None
    ∧ (∀ k, k ≠ "archive" → k ≠ "executor" → m' !! k = m !! k)
    ∧ (∀ k, k ≠ "archive" →
         lookup_path ["executor"; k] (VDict m') = lookup_path ["executor"; k] (VDict m)).
Proof.
  intros Hm.
  apply make_hooks_compatible_RuntimeError_inv in Hm
    as (m & e & rest & -> & Hex & Hh & Hs & Hd).
  destruct (delete_archival_hooks m e _ Hex Hh) as (m' & e' & Hdel & Hex' & Hh').
  assert (Hm' : make_hooks_compatible (VDict m') = (VDict m', Raise (RuntimeError v))).
  { by rewrite (make_hooks_compatible_list m' e' v rest Hex' Hh'), Hs, Hd. }
  destruct (delete_archival_ok m) as (m'' & Hdel'' & Ha & Hea & Hk & Hek).
  { simpl. by rewrite Hex. }
  rewrite Hdel in Hdel''. injection Hdel'' as <-.
  exists m, m'. repeat split; try done.
  by apply (make_external_raise _ _ (VDict m')).
Qed.

Lemma C7_not_atomic_witness :
  ∃ m' : gmap string value,
    make_external C7_doc = (VDict m', Raise (RuntimeError VNone))
    ∧ m' !! "archive" = None.
Proof.
  assert (H : make_hooks_compatible C7_doc = (C7_doc, Raise (RuntimeError VNone)))
    by reflexivity.
  destruct (C7_not_atomic C7_doc C7_doc VNone H)
    as (m & m' & _ & _ & _ & Hext & Ha & _).
  exists m'. split; assumption.
Defined.

Lemma keep_by_class_not_mapping (pre : list (gmap string value)) x post :
  Forall (fun p => is_Some (p !! "class")) pre →
  is_dict x = false →
  keep_by_class ((VDict <$> pre) ++ x :: post) = Raise TypeError.
Proof.
  intros Hpre Hx. induction Hpre as [|p pre [c Hc] _ IH].
  - simpl. by destruct x.
  - change (keep_by_class (VDict p :: ((VDict <$> pre) ++ x :: post))
            = Raise TypeError).
    cbn [keep_by_class py_getitem]. by rewrite Hc, IH.
Qed.

Lemma keep_by_class_missing (pre : list (gmap string value)) d post :
  Forall (fun p => is_Some (p !! "class")) pre →
  d !! "class" = None →
  keep_by_class ((VDict <$> pre) ++ VDict d :: post) = Raise KeyError.
Proof.
  intros Hpre Hd. induction Hpre as [|p pre [c Hc] _ IH].
  - simpl. by rewrite Hd.
  - change (keep_by_class (VDict p :: ((VDict <$> pre) ++ VDict d :: post))
            = Raise KeyError).
    cbn [keep_by_class py_getitem]. by rewrite Hc, IH.
Qed.

(** C10, as stated, fails: the first element is a mapping and the third is
    a mapping without [class], but the string between them is reached
    first, and [hook["class"]] on a string raises TypeError. *)
Lemma C10_counterexample :
  hooks_with_string_between !! 0%nat = Some (VDict {[ "class" := VStr "A" ]})
  ∧ hooks_with_string_between !! 2%nat = Some (VDict ∅)
  ∧ lookup_path ["class"] (VDict ∅) = None
  ∧ make_hooks_compatible (suite_of_hooks hooks_with_string_between)
    = (suite_of_hooks hooks_with_string_between, Raise TypeError)
  ∧ (make_hooks_compatible (suite_of_hooks hooks_with_string_between)).2
    ≠ Raise KeyError.
Proof.
  split; [reflexivity|]. split; [reflexivity|]. split; [reflexivity|].
  split; [vm_compute; reflexivity|].
  vm_compute. discriminate.
Qed.

(** C10, amended.  When the hooks are a list in which a mapping without
    [class] comes after mappings that all have one (none, one or more),
    make_hooks_compatible raises the KeyError of [hook["class"]], not the
    unsupported-shape RuntimeError, and leaves the suite as it was,
    whatever follows that mapping.  When the first element is a mapping
    and an element that is not a mapping comes after mappings that all
    have a [class], [hook["class"]] on that element raises TypeError, so
    that a mapping without [class] further on is not reached. *)
Theorem C10_missing_class (m e : gmap string value) :
  m !! "executor" = Some (VDict e) →
  (∀ (pre : list (gmap string value)) d post,
     e !! "hooks" = Some (VList ((VDict <$> pre) ++ VDict d :: post)) →
     Forall (fun p => is_Some (p !! "class")) pre →
     d !! "class" = None →
     make_hooks_compatible (VDict m) = (VDict m, Raise KeyError)
     ∧ ∀ v, (make_hooks_compatible (VDict m)).2 ≠ Raise (RuntimeError v))
  ∧ (∀ (p : gmap string value) (pre : list (gmap string value)) x post,
       e !! "hooks" = Some (VList ((VDict <$> p :: pre) ++ x :: post)) →
       Forall (fun p => is_Some (p !! "class")) (p :: pre) →
       is_dict x = false →
       make_hooks_compatible (VDict m) = (VDict m, Raise TypeError)).
Proof.
  intros Hex. split.
  - intros pre d post Hh Hpre Hd.
    assert (Hm : make_hooks_compatible (VDict m) = (VDict m, Raise KeyError)).
    { pose proof (keep_by_class_missing pre d post Hpre Hd) as Hk.
      destruct pre as [|p pre].
      - rewrite (make_hooks_compatible_list m e (VDict d) post Hex Hh).
        cbn [is_str is_dict].
        change (VDict d :: post) with ((VDict <$> []) ++ VDict d :: post).
        by rewrite Hk.
      - rewrite (make_hooks_compatible_list m e (VDict p)
                   (fmap (M:=list) VDict pre ++ VDict d :: post) Hex Hh).
        cbn [is_str is_dict].
        change (VDict p :: (VDict <$> pre) ++ VDict d :: post)
          with ((VDict <$> p :: pre) ++ VDict d :: post).
        by rewrite Hk. }
    split; [done|]. intros v. by rewrite Hm.
  - intros p pre x post Hh Hpre Hx.
    pose proof (keep_by_class_not_mapping (p :: pre) x post Hpre Hx) as Hk.
    rewrite (make_hooks_compatible_list m e (VDict p)
               (fmap (M:=list) VDict pre ++ x :: post) Hex Hh).
    cbn [is_str is_dict].
    change (VDict p :: (VDict <$> pre) ++ x :: post)
      with ((VDict <$> p :: pre) ++ x :: post).
    by rewrite Hk.
Qed.

Lemma C10_missing_class_witness :
  make_hooks_compatible
    (suite_of_hooks [VDict {[ "class" := VStr "A" ]}; VDict ∅; VStr "x"])
  = (suite_of_hooks [VDict {[ "class" := VStr "A" ]}; VDict ∅; VStr "x"], Raise KeyError)
  ∧ make_hooks_compatible
      (suite_of_hooks [VDict {[ "class" := VStr "A" ]}; VStr "x"; VDict ∅])
    = (suite_of_hooks [VDict {[ "class" := VStr "A" ]}; VStr "x"; VDict ∅],
       Raise TypeError).
Proof.
  split.
  - assert (Hex : ({[ "executor" :=
                        VDict {[ "hooks" :=
                          VList [VDict {[ "class" := VStr "A" ]}; VDict ∅; VStr "x"] ]} ]}
                    : gmap string value) !! "executor"
                  = Some (VDict {[ "hooks" :=
                            VList [VDict {[ "class" := VStr "A" ]}; VDict ∅; VStr "x"] ]}))
      by (vm_compute; reflexivity).
    apply (proj1 (C10_missing_class _ _ Hex) [ {[ "class" := VStr "A" ]} ] ∅ [VStr "x"]).
    + reflexivity.
    + repeat constructor. exists (VStr "A"). reflexivity.
    + reflexivity.
  - assert (Hex : ({[ "executor" :=
                        VDict {[ "hooks" :=
                          VList [VDict {[ "class" := VStr "A" ]}; VStr "x"; VDict ∅] ]} ]}
                    : gmap string value) !! "executor"
                  = Some (VDict {[ "hooks" :=
                            VList [VDict {[ "class" := VStr "A" ]}; VStr "x"; VDict ∅] ]}))
      by (vm_compute; reflexivity).
    apply (proj2 (C10_missing_class _ _ Hex)
             {[ "class" := VStr "A" ]} [] (VStr "x") [VDict ∅]).
    + reflexivity.
    + repeat constructor. exists (VStr "A"). reflexivity.
    + reflexivity.
Defined.

(** * Chains of setdefault *)

Lemma mappings_along_empty path : mappings_along path (VDict ∅) = true.
Proof. destruct path; simpl; [done|]. by rewrite lookup_empty. Qed.

Lemma lookup_path_empty_inv path v :
  lookup_path path (VDict ∅) = Some v → path = [] ∧ v = VDict ∅.
Proof.
  destruct path; simpl; [by intros [= <-]|]. by rewrite lookup_empty.
Qed.

Lemma lookup_path_mappings path v (d : gmap string value) :
  lookup_path path v = Some (VDict d) → mappings_along path v = true.
Proof.
  revert v. induction path as [|k path IH]; intros v; simpl.
  - by intros [= ->].
  - destruct v as [| | | | |m]; try discriminate.
    destruct (m !! k) as [c|]; simpl; [apply IH | discriminate].
Qed.

Section setdefault_path.
Variable leaf : stmt.

(** A second run of the chain finds what the first one left, when that
    holds of the leaf. *)
Lemma setdefault_path_twice path :
  (∀ v v' r, leaf v = (v', r) → leaf v' = (v', r)) →
  ∀ v v' r,
    setdefault_path path leaf v = (v', r) →
    setdefault_path path leaf v' = (v', r).
Proof.
  intros Hleaf. induction path as [|k path IH]; intros v v' r; simpl.
  - apply Hleaf.
  - destruct v as [| | | | |m]; try (by intros [= <- <-]).
    destruct (setdefault_path path leaf (default (VDict ∅) (m !! k)))
      as [c r'] eqn:Hrec.
    intros [= <- <-]. rewrite lookup_insert_eq. simpl.
    rewrite (IH _ _ _ Hrec). by rewrite insert_insert_eq.
Qed.

(** The chain raises nothing exactly on the suites that have mappings
    along the path, when the leaf raises nothing exactly on mappings. *)
Lemma setdefault_path_Ok path :
  (∀ v, (leaf v).2 = Ok tt ↔ is_dict v = true) →
  ∀ v, (setdefault_path path leaf v).2 = Ok tt ↔ mappings_along path v = true.
Proof.
  intros Hleaf. induction path as [|k path IH]; intros v; simpl.
  - rewrite Hleaf. by destruct v.
  - destruct v as [| | | | |m]; try done.
    destruct (setdefault_path path leaf (default (VDict ∅) (m !! k)))
      as [c r'] eqn:Hrec.
    simpl. specialize (IH (default (VDict ∅) (m !! k))).
    rewrite Hrec in IH. simpl in IH. rewrite IH.
    destruct (m !! k); simpl; [done|]. by rewrite mappings_along_empty.
Qed.

(** Where the chain ends: the object it reaches is the one under the
    path, or a new empty dict when the path did not exist, and the leaf
    ran on it. *)
Lemma setdefault_path_reached path v v' :
  setdefault_path path leaf v = (v', Ok tt) →
  ∃ v0 v0', leaf v0 = (v0', Ok tt)
            ∧ lookup_path path v' = Some v0'
            ∧ (lookup_path path v = Some v0
               ∨ (lookup_path path v = None ∧ v0 = VDict ∅)).
Proof.
  revert v v'. induction path as [|k path IH]; intros v v'; simpl.
  - intros Hl. exists v, v'. auto.
  - destruct v as [| | | | |m]; try discriminate.
    destruct (setdefault_path path leaf (default (VDict ∅) (m !! k)))
      as [c r'] eqn:Hrec.
    intros [= <- ->]. destruct (IH _ _ Hrec) as (v0 & v0' & Hl & Hnew & Hold).
    exists v0, v0'. split; [done|]. rewrite lookup_insert_eq. simpl.
    split; [done|]. destruct (m !! k) as [c0|]; simpl in *; [done|].
    right. split; [done|]. destruct Hold as [Hold|[_ ?]]; [|done].
    by apply lookup_path_empty_inv in Hold as [_ ->].
Qed.

(** Beside the path nothing changes: under a key [k] that leaves the
    path after [pre], the suite reads as before. *)
Lemma setdefault_path_beside path v v' r pre k' post k q :
  setdefault_path path leaf v = (v', r) →
  path = pre ++ k' :: post → k ≠ k' →
  lookup_path (pre ++ k :: q) v' = lookup_path (pre ++ k :: q) v.
Proof.
  revert v v' pre. induction path as [|a path IH]; intros v v' pre; simpl.
  - intros _ Hp. by destruct pre.
  - destruct v as [| | | | |m]; try (by intros [= <- <-]).
    destruct (setdefault_path path leaf (default (VDict ∅) (m !! a)))
      as [c r'] eqn:Hrec.
    intros [= <- <-] Hp Hk. destruct pre as [|b pre]; simpl in *.
    + injection Hp as -> ->. by rewrite lookup_insert_ne.
    + injection Hp as -> ->. rewrite lookup_insert_eq. simpl.
      rewrite (IH _ _ _ Hrec eq_refl Hk).
      destruct (m !! b); simpl; [done|].
      destruct pre; simpl; by rewrite lookup_empty.
Qed.

(** Below the path the suite changes as the leaf changes the object
    reached. *)
Lemma setdefault_path_below path q :
  (∀ v v' r, leaf v = (v', r) → lookup_path q v' = lookup_path q v) →
  q ≠ [] →
  ∀ v v' r,
    setdefault_path path leaf v = (v', r) →
    lookup_path (path ++ q) v' = lookup_path (path ++ q) v.
Proof.
  intros Hleaf Hq. induction path as [|a path IH]; intros v v' r; simpl.
  - apply Hleaf.
  - destruct v as [| | | | |m]; try (by intros [= <- <-]).
    destruct (setdefault_path path leaf (default (VDict ∅) (m !! a)))
      as [c r'] eqn:Hrec.
    intros [= <- <-]. rewrite lookup_insert_eq. simpl.
    rewrite (IH _ _ _ Hrec). destruct (m !! a); simpl; [done|].
    rewrite lookup_path_app.
    destruct path; simpl; [|by rewrite lookup_empty].
    destruct q; [done|]. simpl. by rewrite lookup_empty.
Qed.
End setdefault_path.

(** * update_test_data *)

Lemma update_test_data_unfold :
  update_test_data = setdefault_path TestData_path set_useActionPermittedFile.
Proof. reflexivity. Qed.

Lemma set_useActionPermittedFile_twice v v' r :
  set_useActionPermittedFile v = (v', r) →
  set_useActionPermittedFile v' = (v', r).
Proof.
  destruct v as [| | | | |m]; try (by intros [= <- <-]).
  intros [= <- <-]. unfold set_useActionPermittedFile, on_self. simpl.
  by rewrite insert_insert_eq.
Qed.

Lemma set_useActionPermittedFile_Ok v :
  (set_useActionPermittedFile v).2 = Ok tt ↔ is_dict v = true.
Proof. by destruct v. Qed.

Lemma set_useActionPermittedFile_inv v v' :
  set_useActionPermittedFile v = (v', Ok tt) →
  ∃ td : gmap string value,
    v = VDict td ∧ v' = VDict (<["useActionPermittedFile" := VBool false]> td).
Proof. destruct v as [| | | | |m]; try discriminate. intros [= <-]. eauto. Qed.

Lemma set_useActionPermittedFile_other k q v v' r :
  k ≠ "useActionPermittedFile" →
  set_useActionPermittedFile v = (v', r) →
  lookup_path (k :: q) v' = lookup_path (k :: q) v.
Proof.
  intros Hk. destruct v as [| | | | |m]; try (by intros [= <- <-]).
  intros [= <- <-]. simpl. by rewrite lookup_insert_ne.
Qed.

Lemma update_test_data_Ok suite :
  (update_test_data suite).2 = Ok tt ↔ mappings_along TestData_path suite = true.
Proof.
  rewrite update_test_data_unfold.
  apply setdefault_path_Ok, set_useActionPermittedFile_Ok.
Qed.


(** C4.  On the empty document update_test_data creates the mappings
    [executor], [config], [shell_options], [global_vars] and [TestData],
    one inside the other, and sets [useActionPermittedFile] to False.  It
    raises nothing exactly on the documents that have mappings along that
    path; whenever it returns, the field is False whatever it was; and a
    second application gives what the first gave. *)
Theorem C4_update_test_data :
  update_test_data (VDict ∅)
  = (VDict {[ "executor" :=
       VDict {[ "config" :=
         VDict {[ "shell_options" :=
           VDict {[ "global_vars" :=
             VDict {[ "TestData" :=
               VDict {[ "useActionPermittedFile" := VBool false ]} ]} ]} ]} ]} ]},
     Ok tt)
  ∧ (∀ suite,
       (update_test_data suite).2 = Ok tt ↔ mappings_along TestData_path suite = true)
  ∧ (∀ suite suite',
       update_test_data suite = (suite', Ok tt) →
       lookup_path (TestData_path ++ ["useActionPermittedFile"]) suite'
       = Some (VBool false))
  ∧ (∀ suite suite' r,
       update_test_data suite = (suite', r) →
       update_test_data suite' = (suite', r)).
Proof.
  split; [vm_compute; reflexivity|]. split; [|split].
  - apply update_test_data_Ok.
  - intros suite suite' Hu. rewrite update_test_data_unfold in Hu.
    apply setdefault_path_reached in Hu as (v0 & v0' & Hleaf & Hnew & _).
    apply set_useActionPermittedFile_inv in Hleaf as (td & _ & ->).
    rewrite lookup_path_app, Hnew. simpl. by rewrite lookup_insert_eq.
  - intros suite suite' r. rewrite update_test_data_unfold.
    apply setdefault_path_twice, set_useActionPermittedFile_twice.
Qed.

Lemma C4_update_test_data_witness :
  lookup_path (TestData_path ++ ["useActionPermittedFile"]) C4_doc = Some (VBool true)
  ∧ lookup_path (TestData_path ++ ["useActionPermittedFile"]) C4_doc_after
    = Some (VBool false)
  ∧ update_test_data C4_doc_after = (C4_doc_after, Ok tt).
Proof.
  assert (H : update_test_data C4_doc = (C4_doc_after, Ok tt))
    by (vm_compute; reflexivity).
  split; [reflexivity|]. split.
  - exact (proj1 (proj2 (proj2 C4_update_test_data)) C4_doc C4_doc_after H).
  - exact (proj2 (proj2 (proj2 C4_update_test_data)) C4_doc C4_doc_after (Ok tt) H).
Defined.

(** C9.  When the [TestData] mapping exists, update_test_data raises
    nothing; [TestData] is afterwards the same mapping with
    [useActionPermittedFile] set to False, so each other key of it has
    the value it had; and under every key that is beside the path at any
    level, from the top of the suite down to [TestData], the suite reads
    as before. *)
Theorem C9_update_test_data_frame (suite : value) (td : gmap string value) :
  lookup_path TestData_path suite = Some (VDict td) →
  ∃ suite',
    update_test_data suite = (suite', Ok tt)
    ∧ lookup_path TestData_path suite'
      = Some (VDict (<["useActionPermittedFile" := VBool false]> td))
    ∧ (∀ k, k ≠ "useActionPermittedFile" →
         lookup_path (TestData_path ++ [k]) suite' = td !! k)
    ∧ (∀ pre k' post k q,
         TestData_path ++ ["useActionPermittedFile"] = pre ++ k' :: post →
         k ≠ k' →
         lookup_path (pre ++ k :: q) suite' = lookup_path (pre ++ k :: q) suite).
Proof.
  intros Htd.
  destruct (update_test_data suite) as [suite' r] eqn:Hu. exists suite'.
  assert (r = Ok tt) as ->.
  { pose proof (update_test_data_Ok suite) as Hok.
    rewrite Hu in Hok. apply Hok. by apply lookup_path_mappings in Htd. }
  split; [done|].
  rewrite update_test_data_unfold in Hu.
  assert (Hbelow : ∀ k q, k ≠ "useActionPermittedFile" →
            lookup_path (TestData_path ++ k :: q) suite'
            = lookup_path (TestData_path ++ k :: q) suite).
  { intros k q Hk.
    apply (setdefault_path_below set_useActionPermittedFile TestData_path (k :: q))
      with (r := Ok tt); [|done|done].
    intros v v' r. by apply set_useActionPermittedFile_other. }
  split; [|split].
  - destruct (setdefault_path_reached _ _ _ _ Hu) as (v0 & v0' & Hleaf & Hnew & Hold).
    apply set_useActionPermittedFile_inv in Hleaf as (td0 & -> & ->).
    rewrite Htd in Hold. destruct Hold as [[= ->]|[? _]]; done.
  - intros k Hk. rewrite Hbelow by done. rewrite lookup_path_app, Htd.
    apply lookup_path_1.
  - intros pre k' post k q Hp Hk.
    destruct post as [|p post _] using rev_ind.
    + apply (app_inj_tail TestData_path pre) in Hp as [<- <-]. by apply Hbelow.
    + rewrite app_comm_cons, app_assoc in Hp.
      apply app_inj_tail in Hp as [Hp _].
      by apply (setdefault_path_beside _ _ _ _ _ _ _ _ _ _ Hu Hp).
Qed.

Lemma C9_update_test_data_frame_witness :
  ∃ suite',
    update_test_data C4_doc = (suite', Ok tt)
    ∧ lookup_path (TestData_path ++ ["other"]) suite' = Some (VInt 1).
Proof.
  destruct (C9_update_test_data_frame C4_doc
              {[ "useActionPermittedFile" := VBool true; "other" := VInt 1 ]} eq_refl)
    as (suite' & Hu & _ & Hother & _).
  exists suite'. split; [exact Hu|].
  rewrite (Hother "other") by discriminate. reflexivity.
Defined.

(** * update_shell *)

(** A chain of setdefault followed by the same path of subscripts is one
    chain that runs both leaves on the object reached. *)
Lemma setdefault_then_getitem path (l1 l2 : stmt) v :
  seq (setdefault_path path l1) (getitem_path path l2) v
  = setdefault_path path (seq l1 l2) v.
Proof.
  revert v. induction path as [|k path IH]; intros v; [done|].
  destruct v as [| | | | |m]; try done.
  specialize (IH (default (VDict ∅) (m !! k))).
  unfold seq in *. simpl.
  destruct (setdefault_path path l1 (default (VDict ∅) (m !! k))) as [c1 [[]|x]].
  - rewrite <- IH. simpl. rewrite lookup_insert_eq.
    destruct (getitem_path path l2 c1) as [c2 r2]. by rewrite insert_insert_eq.
  - by rewrite <- IH.
Qed.

(** On a suite with mappings along the path, the chain runs its leaf on
    the object under the path, or on a new empty dict, and the result is
    under the path afterwards. *)
Lemma setdefault_path_run path v :
  mappings_along path v = true →
  ∃ d0 : gmap string value,
    (lookup_path path v = Some (VDict d0)
     ∨ (lookup_path path v = None ∧ d0 = ∅))
    ∧ ∀ leaf, ∃ v',
        setdefault_path path leaf v = (v', (leaf (VDict d0)).2)
        ∧ lookup_path path v' = Some (leaf (VDict d0)).1.
Proof.
  revert v. induction path as [|k path IH]; intros v Hv.
  - destruct v as [| | | | |m]; try discriminate.
    exists m. split; [by left|]. intros leaf. exists (leaf (VDict m)).1.
    simpl. by destruct (leaf (VDict m)).
  - destruct v as [| | | | |m]; try discriminate. simpl in Hv.
    destruct (IH (default (VDict ∅) (m !! k))) as (d0 & Hold & Hrun).
    { destruct (m !! k); simpl; [done | apply mappings_along_empty]. }
    exists d0. split.
    + simpl. destruct (m !! k) as [c|]; simpl in *; [done|].
      right. split; [done|]. destruct Hold as [Hold|[_ ?]]; [|done].
      apply lookup_path_empty_inv in Hold as [_ [= <-]]. done.
    + intros leaf. destruct (Hrun leaf) as (c' & Hc & Hl). simpl. rewrite Hc.
      eexists. split; [reflexivity|]. simpl. by rewrite lookup_insert_eq.
Qed.

Lemma update_shell_unfold suite :
  update_shell suite = setdefault_path shell_options_path append_eval suite.
Proof. apply setdefault_then_getitem. Qed.

Lemma append_eval_str (so : gmap string value) old :
  default (VStr "") (so !! "eval") = VStr old →
  append_eval (VDict so)
  = (VDict (<["eval" := VStr (old +:+ jsTestLog_noop)]> so), Ok tt).
Proof.
  intros Hold. unfold append_eval, seq, iadd_item, on_self. simpl.
  rewrite lookup_insert_eq, Hold. simpl. by rewrite insert_insert_eq.
Qed.

Lemma append_eq_self (s t : string) : s +:+ t = s → t = "".
Proof. induction s as [|a s IH]; simpl; [done|]. intros [= H]. by apply IH. Qed.

(** One application on a suite of the expected shape. *)
Lemma update_shell_appends suite old :
  mappings_along shell_options_path suite = true →
  (lookup_path eval_path suite = Some (VStr old)
   ∨ (lookup_path eval_path suite = None ∧ old = "")) →
  ∃ suite',
    update_shell suite = (suite', Ok tt)
    ∧ lookup_path eval_path suite' = Some (VStr (old +:+ jsTestLog_noop))
    ∧ mappings_along shell_options_path suite' = true.
Proof.
  intros Hshape Heval.
  destruct (setdefault_path_run _ _ Hshape) as (so & Hso & Hrun).
  destruct (Hrun append_eval) as (suite' & Hu & Hl).
  assert (Hold : default (VStr "") (so !! "eval") = VStr old).
  { unfold eval_path in Heval. rewrite lookup_path_app in Heval.
    destruct Hso as [Hso|[Hso ->]]; rewrite Hso in Heval; simpl in Heval.
    - destruct (so !! "eval"); simpl in *; destruct Heval as [[= ->]|[? ->]]; done.
    - rewrite lookup_empty. destruct Heval as [?|[_ ->]]; done. }
  rewrite (append_eval_str so old Hold) in Hu, Hl. cbn [fst snd] in Hu, Hl.
  exists suite'. split; [by rewrite update_shell_unfold|]. split.
  - unfold eval_path. rewrite lookup_path_app, Hl. simpl.
    by rewrite lookup_insert_eq.
  - by apply lookup_path_mappings in Hl.
Qed.

(** C5.  On a suite with mappings along [executor.config.shell_options]
    whose [eval] is a string, or is missing and then counts as the empty
    string, update_shell raises nothing and [eval] is afterwards the old
    string followed by the statement [jsTestLog = Function.prototype;].
    A second application appends the statement once more, so it does not
    give back the suite of the first: update_shell is not idempotent.  On
    the empty document two applications leave the statement twice. *)
Theorem C5_update_shell_not_idempotent :
  (∀ suite old,
     mappings_along shell_options_path suite = true →
     (lookup_path eval_path suite = Some (VStr old)
      ∨ (lookup_path eval_path suite = None ∧ old = "")) →
     ∃ suite' suite'',
       update_shell suite = (suite', Ok tt)
       ∧ lookup_path eval_path suite' = Some (VStr (old +:+ jsTestLog_noop))
       ∧ update_shell suite' = (suite'', Ok tt)
       ∧ lookup_path eval_path suite''
         = Some (VStr ((old +:+ jsTestLog_noop) +:+ jsTestLog_noop))
       ∧ suite'' ≠ suite')
  ∧ seq update_shell update_shell (VDict ∅)
    = (VDict {[ "executor" :=
         VDict {[ "config" :=
           VDict {[ "shell_options" :=
             VDict {[ "eval" :=
               VStr "jsTestLog = Function.prototype;jsTestLog = Function.prototype;"
             ]} ]} ]} ]},
       Ok tt).
Proof.
  split; [|vm_compute; reflexivity].
  intros suite old Hshape Heval.
  destruct (update_shell_appends suite old Hshape Heval) as (s1 & Hu1 & He1 & Hs1).
  destruct (update_shell_appends s1 _ Hs1 (or_introl He1)) as (s2 & Hu2 & He2 & _).
  exists s1, s2. repeat split; try done.
  intros ->. rewrite He1 in He2. injection He2 as He2.
  symmetry in He2. apply append_eq_self in He2. discriminate.
Qed.

Lemma C5_update_shell_not_idempotent_witness :
  ∃ suite' suite'',
    update_shell (VDict {[ "executor" := VDict ∅ ]}) = (suite', Ok tt)
    ∧ update_shell suite' = (suite'', Ok tt)
    ∧ suite'' ≠ suite'.
Proof.
  assert (Hshape : mappings_along shell_options_path
                     (VDict {[ "executor" := VDict ∅ ]}) = true) by reflexivity.
  assert (Heval : lookup_path eval_path (VDict {[ "executor" := VDict ∅ ]}) = None)
    by reflexivity.
  destruct (proj1 C5_update_shell_not_idempotent
              (VDict {[ "executor" := VDict ∅ ]}) "" Hshape
              (or_intror (conj Heval eq_refl)))
    as (s1 & s2 & H1 & _ & H2 & _ & Hne).
  exists s1, s2. split; [exact H1|]. split; [exact H2 | exact Hne].
Defined.

(** * update_exclude_tags *)

Lemma lookup_tags (m : gmap string value) :
  mappings_along ["selector"] (VDict m) = true →
  lookup_path tags_path (VDict m) = selector_of m !! "exclude_with_any_tags".
Proof.
  unfold selector_of. simpl. destruct (m !! "selector") as [sel|]; simpl.
  - destruct sel; try discriminate. intros _.
    by destruct (_ !! "exclude_with_any_tags").
  - by rewrite lookup_empty.
Qed.

Lemma update_exclude_tags_dict (m : gmap string value) :
  mappings_along ["selector"] (VDict m) = true →
  update_exclude_tags (VDict m) =
    let tags := default VNone (selector_of m !! "exclude_with_any_tags") in
    if negb (truthy tags) then
      (with_tags (VList [VStr "antithesis_incompatible"]) m, Ok tt)
    else
      match py_append (VStr "antithesis_incompatible") tags with
      | Ok tags' => (with_tags tags' m, Ok tt)
      | Raise x => (VDict m, Raise x)
      end.
Proof.
  intros Hshape. unfold update_exclude_tags, seq, with_tags, selector_of.
  simpl in *. destruct (m !! "selector") as [sel|] eqn:Hsel; simpl.
  - destruct sel as [| | | | |sel]; try discriminate. simpl.
    rewrite !lookup_insert_eq. simpl.
    destruct (sel !! "exclude_with_any_tags") as [tags|] eqn:Ht; simpl.
    + destruct (truthy tags); simpl.
      * unfold on_self.
        destruct (py_append _ tags); simpl; rewrite insert_insert_eq; [done|].
        rewrite (insert_id sel) by done. by rewrite (insert_id m).
      * by rewrite insert_insert_eq.
    + by rewrite insert_insert_eq.
  - rewrite ?lookup_insert_eq. simpl. rewrite lookup_empty. simpl.
    rewrite ?lookup_insert_eq. by rewrite insert_insert_eq.
Qed.

(** C6.  On a suite whose [selector] is missing or a mapping: when
    [selector.exclude_with_any_tags] is missing or falsy, update_exclude_tags
    sets it to the list of the one tag "antithesis_incompatible"; when it
    is a non-empty list, the tag is added at its end and the tags before
    stay, in their order.  Nothing is raised and nothing else in the suite
    changes.  The list ["foo"] and the suite without [selector] of the
    specification are instances. *)
Theorem C6_update_exclude_tags :
  (∀ m : gmap string value,
     mappings_along ["selector"] (VDict m) = true →
     absent_or_falsy (lookup_path tags_path (VDict m)) →
     update_exclude_tags (VDict m)
     = (with_tags (VList [VStr "antithesis_incompatible"]) m, Ok tt))
  ∧ (∀ (m : gmap string value) (tags : list value),
       mappings_along ["selector"] (VDict m) = true →
       lookup_path tags_path (VDict m) = Some (VList tags) →
       tags ≠ [] →
       update_exclude_tags (VDict m)
       = (with_tags (VList (tags ++ [VStr "antithesis_incompatible"])) m, Ok tt))
  ∧ update_exclude_tags
      (VDict {[ "selector" := VDict {[ "exclude_with_any_tags" := VList [VStr "foo"] ]} ]})
    = (VDict {[ "selector" :=
                  VDict {[ "exclude_with_any_tags" :=
                             VList [VStr "foo"; VStr "antithesis_incompatible"] ]} ]},
       Ok tt)
  ∧ update_exclude_tags (VDict ∅)
    = (VDict {[ "selector" :=
                  VDict {[ "exclude_with_any_tags" :=
                             VList [VStr "antithesis_incompatible"] ]} ]},
       Ok tt).
Proof.
  split; [|split; [|split]].
  - intros m Hshape Hno. rewrite update_exclude_tags_dict by done.
    rewrite lookup_tags in Hno by done. simpl.
    destruct (selector_of m !! "exclude_with_any_tags"); simpl in *; [|done].
    by rewrite Hno.
  - intros m tags Hshape Htags Hne. rewrite update_exclude_tags_dict by done.
    rewrite lookup_tags in Htags by done. rewrite Htags. simpl.
    by destruct tags.
  - vm_compute. reflexivity.
  - vm_compute. reflexivity.
Qed.

Lemma C6_update_exclude_tags_witness :
  update_exclude_tags (VDict {[ "selector" := VDict {[ "exclude_with_any_tags" := VList [] ]} ]})
  = (with_tags (VList [VStr "antithesis_incompatible"])
       {[ "selector" := VDict {[ "exclude_with_any_tags" := VList [] ]} ]}, Ok tt)
  ∧ update_exclude_tags
      (VDict {[ "selector" := VDict {[ "exclude_with_any_tags" := VList [VStr "a"; VStr "b"] ]} ]})
    = (with_tags (VList ([VStr "a"; VStr "b"] ++ [VStr "antithesis_incompatible"]))
         {[ "selector" := VDict {[ "exclude_with_any_tags" := VList [VStr "a"; VStr "b"] ]} ]},
       Ok tt).
Proof.
  split.
  - apply (proj1 C6_update_exclude_tags
             {[ "selector" := VDict {[ "exclude_with_any_tags" := VList [] ]} ]});
      reflexivity.
  - apply (proj1 (proj2 C6_update_exclude_tags)
             {[ "selector" := VDict {[ "exclude_with_any_tags" := VList [VStr "a"; VStr "b"] ]} ]}
             [VStr "a"; VStr "b"]); [reflexivity | reflexivity | discriminate].
Defined.

(** * What each step leaves alone *)

Lemma delete_archival_Ok_inv suite s1 :
  delete_archival suite = (s1, Ok tt) →
  ∃ m : gmap string value,
    suite = VDict m ∧ mappings_along ["executor"] (VDict m) = true.
Proof.
  destruct suite as [| | | | |m]; try discriminate.
  rewrite delete_archival_dict, lookup_delete_ne by done. intros H.
  exists m. split; [done|]. simpl.
  destruct (m !! "executor") as [ex|]; [|done].
  by destruct ex.
Qed.

(** Below [executor], delete_archival changes the [archive] key only. *)
Lemma delete_archival_below suite s1 r k q :
  delete_archival suite = (s1, r) →
  k ≠ "archive" →
  lookup_path ("executor" :: k :: q) s1 = lookup_path ("executor" :: k :: q) suite.
Proof.
  destruct suite as [| | | | |m]; try (by intros [= <- <-]).
  rewrite delete_archival_dict, lookup_delete_ne by done. intros H Hk.
  destruct (m !! "executor") as [ex|] eqn:Hex.
  - destruct ex as [| | | | |e]; simpl in H; injection H as <- <-; simpl;
      rewrite ?lookup_insert_eq, ?lookup_delete_ne, ?Hex by done; simpl; try done.
    by rewrite lookup_delete_ne.
  - injection H as <- <-. simpl. by rewrite lookup_delete_ne, Hex.
Qed.

(** Beside [executor] and [archive], delete_archival changes nothing. *)
Lemma delete_archival_beside suite s1 r k q :
  delete_archival suite = (s1, r) →
  k ≠ "archive" → k ≠ "executor" →
  lookup_path (k :: q) s1 = lookup_path (k :: q) suite.
Proof.
  destruct suite as [| | | | |m]; try (by intros [= <- <-]).
  rewrite delete_archival_dict, lookup_delete_ne by done. intros H Hk1 Hk2.
  destruct (m !! "executor") as [ex|] eqn:Hex.
  - destruct (py_pop "archive" ex); injection H as <- <-; simpl;
      rewrite ?lookup_insert_ne by done; by rewrite lookup_delete_ne.
  - injection H as <- <-. simpl. by rewrite lookup_delete_ne.
Qed.

(** make_hooks_compatible either leaves the suite or assigns the hooks. *)
Lemma make_hooks_compatible_cases suite s' r :
  make_hooks_compatible suite = (s', r) →
  s' = suite
  ∨ ∃ (m e : gmap string value) new,
      suite = VDict m ∧ m !! "executor" = Some (VDict e)
      ∧ s' = with_hooks new m e ∧ r = Ok tt.
Proof.
  destruct r as [[]|x]; [|intros H; left; by apply make_hooks_compatible_raise in H].
  unfold make_hooks_compatible.
  destruct suite as [| | | | |m]; simpl; try discriminate.
  destruct (m !! "executor") as [ex|] eqn:Hex; simpl.
  2:{ rewrite lookup_empty. simpl. intros [= <-]. by left. }
  destruct ex as [| | | | |e]; simpl; try discriminate.
  destruct (truthy (default VNone (e !! "hooks"))); [|intros [= <-]; by left].
  destruct (py_item0 _) as [h0|]; [|discriminate].
  destruct (is_str h0).
  { destruct (py_iter _) as [l|]; [|discriminate].
    rewrite (set_hooks_dict _ m e Hex). intros [= <-]. right. eauto 10. }
  destruct (is_dict h0); [|discriminate].
  destruct (py_iter _) as [l|]; [|discriminate].
  destruct (keep_by_class l); [|discriminate].
  rewrite (set_hooks_dict _ m e Hex). intros [= <-]. right. eauto 10.
Qed.

(** Beside [executor.hooks], make_hooks_compatible changes nothing. *)
Lemma make_hooks_compatible_beside suite s' r :
  make_hooks_compatible suite = (s', r) →
  (∀ k q, k ≠ "executor" → lookup_path (k :: q) s' = lookup_path (k :: q) suite)
  ∧ (∀ k q, k ≠ "hooks" →
       lookup_path ("executor" :: k :: q) s' = lookup_path ("executor" :: k :: q) suite).
Proof.
  intros H. apply make_hooks_compatible_cases in H
    as [->|(m & e & new & -> & Hex & -> & _)]; [done|].
  unfold with_hooks. split; intros k q Hk; simpl.
  - by rewrite lookup_insert_ne.
  - rewrite lookup_insert_eq, Hex. simpl. by rewrite lookup_insert_ne.
Qed.


Lemma append_eval_other k q v v' r :
  k ≠ "eval" →
  append_eval v = (v', r) →
  lookup_path (k :: q) v' = lookup_path (k :: q) v.
Proof.
  intros Hk. unfold append_eval, seq, iadd_item, on_self.
  destruct v as [| | | | |so]; try (by intros [= <- <-]). simpl.
  rewrite lookup_insert_eq.
  destruct (py_iadd_str jsTestLog_noop (default (VStr "") (so !! "eval")));
    simpl; intros [= <- <-]; simpl; by rewrite !lookup_insert_ne.
Qed.




(** * make_external *)

Lemma make_external_Ok_inv suite s v :
  make_external suite = (s, Ok v) →
  v = s
  ∧ ∃ s1 s2 s3 s4,
      delete_archival suite = (s1, Ok tt)
      ∧ make_hooks_compatible s1 = (s2, Ok tt)
      ∧ update_test_data s2 = (s3, Ok tt)
      ∧ update_shell s3 = (s4, Ok tt)
      ∧ update_exclude_tags s4 = (s, Ok tt).
Proof.
  unfold make_external, make_external_steps, seq.
  destruct (delete_archival suite) as [s1 [[]|]] eqn:H1; [|discriminate].
  destruct (make_hooks_compatible s1) as [s2 [[]|]] eqn:H2; [|discriminate].
  destruct (update_test_data s2) as [s3 [[]|]] eqn:H3; [|discriminate].
  destruct (update_shell s3) as [s4 [[]|]] eqn:H4; [|discriminate].
  destruct (update_exclude_tags s4) as [s5 [[]|]] eqn:H5; [|discriminate].
  intros [= <- <-]. split; [done|]. by exists s1, s2, s3, s4.
Qed.

(** The three steps after make_hooks_compatible change nothing beside
    their own paths. *)
Lemma update_test_data_beside suite s' r pre k' post k q :
  update_test_data suite = (s', r) →
  TestData_path = pre ++ k' :: post → k ≠ k' →
  lookup_path (pre ++ k :: q) s' = lookup_path (pre ++ k :: q) suite.
Proof.
  rewrite update_test_data_unfold. intros Hu Hp Hk.
  by apply (setdefault_path_beside _ _ _ _ _ _ _ _ _ _ Hu Hp).
Qed.

Lemma update_shell_beside suite s' r pre k' post k q :
  update_shell suite = (s', r) →
  shell_options_path = pre ++ k' :: post → k ≠ k' →
  lookup_path (pre ++ k :: q) s' = lookup_path (pre ++ k :: q) suite.
Proof.
  rewrite update_shell_unfold. intros Hu Hp Hk.
  by apply (setdefault_path_beside _ _ _ _ _ _ _ _ _ _ Hu Hp).
Qed.

Lemma update_shell_below suite s' r k q :
  update_shell suite = (s', r) →
  k ≠ "eval" →
  lookup_path (shell_options_path ++ k :: q) s'
  = lookup_path (shell_options_path ++ k :: q) suite.
Proof.
  rewrite update_shell_unfold. intros Hu Hk.
  apply (setdefault_path_below append_eval shell_options_path (k :: q))
    with (r := r); [|done|done].
  intros v v' r'. by apply append_eval_other.
Qed.



(** Rewrite with a fact about a lookup beside a path, once the path it
    names is in the form of a list. *)
Ltac rewrite_beside H :=
  let Hb := fresh "Hb" in
  pose proof H as Hb; cbn [app shell_options_path] in Hb; rewrite Hb; clear Hb.



(** * Shapes through the steps *)

Lemma mappings_along_prefix p q v :
  mappings_along (p ++ q) v = true → mappings_along p v = true.
Proof.
  revert v. induction p as [|k p IH]; intros v; simpl.
  - by destruct v, q.
  - destruct v as [| | | | |m]; try done.
    destruct (m !! k); [apply IH | done].
Qed.

Lemma mappings_along_1 k v :
  mappings_along [k] v = true
  ↔ is_dict v = true ∧ ∀ x, lookup_path [k] v = Some x → is_dict x = true.
Proof.
  destruct v as [| | | | |m]; simpl; try (split; [done | by intros [? _]]).
  destruct (m !! k) as [c|]; simpl.
  - split.
    + intros Hc. split; [done|]. intros x [= <-]. by destruct c.
    + intros [_ Hc]. specialize (Hc c eq_refl). by destruct c.
  - split; [|done]. intros _. split; [done|]. discriminate.
Qed.

(** The shape along a path of two keys or more depends on the entry under
    the first two only, once the first is known to be a mapping. *)
Lemma mappings_along_2 k k2 rest v v' :
  mappings_along (k :: k2 :: rest) v = true →
  mappings_along [k] v' = true →
  lookup_path [k; k2] v' = lookup_path [k; k2] v →
  mappings_along (k :: k2 :: rest) v' = true.
Proof.
  intros Hv Hv' Heq.
  destruct v' as [| | | | |m']; try discriminate. simpl in *.
  destruct (m' !! k) as [c'|]; [|done]. simpl in *.
  destruct c' as [| | | | |e']; try discriminate.
  destruct (e' !! k2) as [x|] eqn:Hx; [|done]. simpl in Heq.
  destruct v as [| | | | |m]; try discriminate.
  destruct (m !! k) as [c|]; [|discriminate]. simpl in Heq.
  destruct c as [| | | | |e]; try discriminate.
  destruct (e !! k2) as [y|]; [|discriminate]. simpl in Heq.
  by injection Heq as ->.
Qed.

Lemma delete_archival_shape suite s1 :
  delete_archival suite = (s1, Ok tt) → mappings_along ["executor"] s1 = true.
Proof.
  intros Hdel. destruct (delete_archival_Ok_inv _ _ Hdel) as (m & -> & Hshape).
  rewrite delete_archival_dict, lookup_delete_ne in Hdel by done.
  simpl in Hshape. destruct (m !! "executor") as [ex|] eqn:Hex.
  - destruct ex; try discriminate. injection Hdel as <-. simpl.
    by rewrite lookup_insert_eq.
  - injection Hdel as <-. simpl. by rewrite lookup_delete_ne, Hex.
Qed.

Lemma make_hooks_compatible_shape suite s' r :
  make_hooks_compatible suite = (s', r) →
  mappings_along ["executor"] suite = true →
  mappings_along ["executor"] s' = true.
Proof.
  intros H Hshape. apply make_hooks_compatible_cases in H
    as [->|(m & e & new & -> & Hex & -> & _)]; [done|].
  unfold with_hooks. simpl. by rewrite lookup_insert_eq.
Qed.

(** make_hooks_compatible raises nothing on hooks of the data model. *)
Lemma make_hooks_compatible_Ok suite :
  mappings_along ["executor"] suite = true →
  (∀ h, lookup_path ["executor"; "hooks"] suite = Some h → hooks_of_data_model h) →
  (make_hooks_compatible suite).2 = Ok tt.
Proof.
  intros Hshape Hhooks. destruct suite as [| | | | |m]; try discriminate.
  simpl in Hshape, Hhooks.
  destruct (m !! "executor") as [ex|] eqn:Hex.
  2:{ unfold make_hooks_compatible. simpl. rewrite Hex. simpl.
      by rewrite lookup_empty. }
  destruct ex as [| | | | |e]; try discriminate. simpl in Hhooks.
  destruct (e !! "hooks") as [h|] eqn:Hh.
  2:{ unfold make_hooks_compatible. simpl. rewrite Hex. simpl. by rewrite Hh. }
  destruct (Hhooks h eq_refl) as [Hf|[(names & ->)|(ds & -> & Hcls)]].
  - unfold make_hooks_compatible. simpl. rewrite Hex. simpl. rewrite Hh. simpl.
    by rewrite Hf.
  - destruct names as [|n names].
    { unfold make_hooks_compatible. simpl. rewrite Hex. simpl. by rewrite Hh. }
    by rewrite (make_hooks_compatible_list m e (VStr n)
                  (fmap (M:=list) VStr names) Hex Hh).
  - destruct ds as [|d ds].
    { unfold make_hooks_compatible. simpl. rewrite Hex. simpl. by rewrite Hh. }
    rewrite (make_hooks_compatible_list m e (VDict d)
               (fmap (M:=list) VDict ds) Hex Hh).
    cbn [is_str is_dict].
    change (VDict d :: (VDict <$> ds)) with (VDict <$> d :: ds).
    by rewrite keep_by_class_structured.
Qed.

Lemma make_external_Ok suite :
  data_model suite → ∃ s, make_external suite = (s, Ok s).
Proof.
  intros (Htd & Hsel & Heval & Htags & Hhooks).
  assert (Hexs : mappings_along ["executor"] suite = true).
  { by apply (mappings_along_prefix ["executor"]
                ["config"; "shell_options"; "global_vars"; "TestData"]). }
  destruct (mappings_along_dict _ _ Hexs) as [m ->].
  (* delete_archival *)
  destruct (delete_archival_ok m Hexs) as (m1 & Hdel & _).
  pose proof (delete_archival_shape _ _ Hdel) as Hs1.
  (* make_hooks_compatible *)
  destruct (make_hooks_compatible (VDict m1)) as [s2 r2] eqn:Hmhc.
  assert (r2 = Ok tt) as ->.
  { pose proof (make_hooks_compatible_Ok (VDict m1) Hs1) as H.
    rewrite Hmhc in H. apply H. intros h Hh. apply Hhooks. rewrite <- Hh.
    symmetry. by apply (delete_archival_below _ _ _ "hooks" [] Hdel). }
  pose proof (make_hooks_compatible_shape _ _ _ Hmhc Hs1) as Hs2.
  destruct (make_hooks_compatible_beside _ _ _ Hmhc) as [Htop2 Hex2].
  (* update_test_data *)
  destruct (update_test_data s2) as [s3 r3] eqn:Hutd.
  assert (r3 = Ok tt) as ->.
  { pose proof (update_test_data_Ok s2) as H. rewrite Hutd in H. apply H.
    apply (mappings_along_2 "executor" "config"
             ["shell_options"; "global_vars"; "TestData"] (VDict m));
      [exact Htd | exact Hs2 |].
    rewrite (Hex2 "config" []) by done.
    by apply (delete_archival_below _ _ _ "config" [] Hdel). }
  assert (Hs3 : mappings_along TestData_path s3 = true).
  { apply update_test_data_Ok. rewrite update_test_data_unfold in *.
    by rewrite (setdefault_path_twice _ _ set_useActionPermittedFile_twice
                  _ _ _ Hutd). }
  (* update_shell *)
  assert (Heval3 : lookup_path eval_path s3 = lookup_path eval_path (VDict m)).
  { change eval_path with ("executor" :: "config" :: ["shell_options"; "eval"]).
    rewrite_beside (update_test_data_beside _ _ _ shell_options_path "global_vars"
                      ["TestData"] "eval" [] Hutd eq_refl ltac:(done)).
    rewrite (Hex2 "config" ["shell_options"; "eval"]) by done.
    by apply (delete_archival_below _ _ _ "config" _ Hdel). }
  destruct (update_shell_appends s3
              (match lookup_path eval_path s3 with Some (VStr o) => o | _ => "" end))
    as (s4 & Hush & _ & Hs4).
  { by apply (mappings_along_prefix shell_options_path ["global_vars"; "TestData"]). }
  { destruct (lookup_path eval_path s3) as [e|]; [|by right]. left.
    symmetry in Heval3. specialize (Heval e Heval3). by destruct e. }
  (* update_exclude_tags *)
  assert (Hsel4 : ∀ q, lookup_path ("selector" :: q) s4
                       = lookup_path ("selector" :: q) (VDict m)).
  { intros q.
    rewrite_beside (update_shell_beside _ _ _ [] "executor"
                      ["config"; "shell_options"] "selector" q Hush eq_refl
                      ltac:(done)).
    rewrite_beside (update_test_data_beside _ _ _ [] "executor"
                      ["config"; "shell_options"; "global_vars"; "TestData"]
                      "selector" q Hutd eq_refl ltac:(done)).
    rewrite Htop2 by done. by apply (delete_archival_beside _ _ _ _ _ Hdel). }
  assert (Hshape4 : mappings_along ["selector"] s4 = true).
  { apply mappings_along_1. apply mappings_along_1 in Hsel as [_ Hsel]. split.
    - destruct (mappings_along_dict _ _ Hs4) as [m4 ->]. done.
    - intros x. rewrite Hsel4. apply Hsel. }
  destruct (mappings_along_dict _ _ Hshape4) as [m4 ->].
  assert (Huet : ∃ s5, update_exclude_tags (VDict m4) = (s5, Ok tt)).
  { rewrite (update_exclude_tags_dict m4 Hshape4). simpl.
    pose proof (lookup_tags m4 Hshape4) as Ht.
    unfold tags_path in Ht. rewrite Hsel4 in Ht.
    destruct (selector_of m4 !! "exclude_with_any_tags") as [t|]; simpl; [|eauto].
    destruct (Htags t Ht) as [Hf|[l ->]]; [rewrite Hf; simpl; eauto|].
    destruct l; simpl; eauto. }
  destruct Huet as [s5 Huet]. exists s5.
  unfold make_external, make_external_steps, seq.
  by rewrite Hdel, Hmhc, Hutd, Hush, Huet.
Qed.

(** X2.  On every suite of the data model make_external raises nothing
    and returns the suite object it was given, as the five steps left
    it. *)
Theorem make_external_total suite :
  data_model suite → ∃ s, make_external suite = (s, Ok s).
Proof. apply make_external_Ok. Qed.

Lemma make_external_total_witness :
  ∃ s, make_external example_suite = (s, Ok s).
Proof.
  apply make_external_total. repeat split.
  - intros e H. vm_compute in H. discriminate.
  - intros t H. vm_compute in H. discriminate.
  - intros h H. vm_compute in H. injection H as <-.
    right. left. exists ["CleanEveryN"]. reflexivity.
Defined.

(** * Outside the data model *)

(** X3.  When [executor] is there and is not a mapping, delete_archival
    raises, AttributeError or, on a list, TypeError, after it has removed
    the top-level [archive]; make_external stops with the same error and
    the same suite. *)
Theorem delete_archival_executor_not_mapping (m : gmap string value) ex :
  m !! "executor" = Some ex →
  is_dict ex = false →
  delete_archival (VDict m)
  = (VDict (delete "archive" m),
     Raise (if is_list ex then TypeError else AttributeError))
  ∧ make_external (VDict m)
    = (VDict (delete "archive" m),
       Raise (if is_list ex then TypeError else AttributeError)).
Proof.
  intros Hex Hnd.
  assert (Hdel : delete_archival (VDict m)
                 = (VDict (delete "archive" m),
                    Raise (if is_list ex then TypeError else AttributeError))).
  { rewrite delete_archival_dict, lookup_delete_ne, Hex by done.
    by destruct ex. }
  split; [done|].
  unfold make_external, make_external_steps, seq. by rewrite Hdel.
Qed.

Lemma delete_archival_executor_not_mapping_witness :
  make_external (VDict {[ "archive" := VBool true; "executor" := VNone ]})
  = (VDict (delete "archive" {[ "archive" := VBool true; "executor" := VNone ]}),
     Raise AttributeError).
Proof.
  apply (delete_archival_executor_not_mapping
           {[ "archive" := VBool true; "executor" := VNone ]} VNone);
    reflexivity.
Defined.

Lemma make_hooks_compatible_plain (m e : gmap string value) (names : list string) :
  m !! "executor" = Some (VDict e) →
  e !! "hooks" = Some (VList (VStr <$> names)) →
  names ≠ [] →
  make_hooks_compatible (VDict m)
  = (with_hooks
       (VList (VStr <$> "AntithesisLogging"
                        :: filter (fun n => n ∉ INCOMPATIBLE_HOOKS) names))
       m e, Ok tt).
Proof.
  intros Hex Hh Hne. destruct names as [|n names]; [done|].
  rewrite (make_hooks_compatible_list m e (VStr n) (fmap (M:=list) VStr names) Hex Hh).
  cbn [is_str].
  change (VStr n :: (VStr <$> names)) with (VStr <$> n :: names).
  by rewrite filter_plain_hooks.
Qed.

Lemma make_hooks_compatible_structured (m e : gmap string value)
    (ds : list (gmap string value)) :
  m !! "executor" = Some (VDict e) →
  e !! "hooks" = Some (VList (VDict <$> ds)) →
  ds ≠ [] →
  Forall (fun d => is_Some (d !! "class")) ds →
  make_hooks_compatible (VDict m)
  = (with_hooks
       (VList (VDict <$> {[ "class" := VStr "AntithesisLogging" ]}
                         :: filter (fun d => ¬ class_incompatible d) ds))
       m e, Ok tt).
Proof.
  intros Hex Hh Hne Hcls. destruct ds as [|d ds]; [done|].
  rewrite (make_hooks_compatible_list m e (VDict d) (fmap (M:=list) VDict ds) Hex Hh).
  cbn [is_str is_dict].
  change (VDict d :: (VDict <$> ds)) with (VDict <$> d :: ds).
  by rewrite keep_by_class_structured.
Qed.

Lemma AntithesisLogging_compatible : "AntithesisLogging" ∉ INCOMPATIBLE_HOOKS.
Proof. apply (bool_decide_unpack _). by vm_compute. Qed.

Lemma with_hooks_twice new new' (m e : gmap string value) :
  with_hooks new'
    (<["executor" := VDict (<["hooks" := new]> e)]> m) (<["hooks" := new]> e)
  = with_hooks new' m e.
Proof. unfold with_hooks. by rewrite !insert_insert_eq. Qed.

(** X4.  make_hooks_compatible is not idempotent: a second application
    puts a second logging hook in front and removes nothing more, for
    plain hooks and for structured ones. *)
Theorem make_hooks_compatible_twice :
  (∀ (m e : gmap string value) (names : list string),
     m !! "executor" = Some (VDict e) →
     e !! "hooks" = Some (VList (VStr <$> names)) →
     names ≠ [] →
     seq make_hooks_compatible make_hooks_compatible (VDict m)
     = (with_hooks
          (VList (VStr <$> "AntithesisLogging" :: "AntithesisLogging"
                           :: filter (fun n => n ∉ INCOMPATIBLE_HOOKS) names))
          m e, Ok tt))
  ∧ (∀ (m e : gmap string value) (ds : list (gmap string value)),
       m !! "executor" = Some (VDict e) →
       e !! "hooks" = Some (VList (VDict <$> ds)) →
       ds ≠ [] →
       Forall (fun d => is_Some (d !! "class")) ds →
       seq make_hooks_compatible make_hooks_compatible (VDict m)
       = (with_hooks
            (VList (VDict <$> {[ "class" := VStr "AntithesisLogging" ]}
                              :: {[ "class" := VStr "AntithesisLogging" ]}
                              :: filter (fun d => ¬ class_incompatible d) ds))
            m e, Ok tt)).
Proof.
  split.
  - intros m e names Hex Hh Hne. unfold seq.
    rewrite (make_hooks_compatible_plain m e names Hex Hh Hne). unfold with_hooks at 1.
    erewrite make_hooks_compatible_plain;
      [| apply lookup_insert_eq | apply lookup_insert_eq | done].
    rewrite with_hooks_twice. do 3 f_equal.
    rewrite filter_cons_True by apply AntithesisLogging_compatible.
    by rewrite list_filter_filter_l.
  - intros m e ds Hex Hh Hne Hcls. unfold seq.
    rewrite (make_hooks_compatible_structured m e ds Hex Hh Hne Hcls).
    unfold with_hooks at 1.
    erewrite make_hooks_compatible_structured;
      [| apply lookup_insert_eq | apply lookup_insert_eq | done |].
    + rewrite with_hooks_twice. do 3 f_equal.
      rewrite filter_cons_True.
      * by rewrite list_filter_filter_l.
      * intros (s & Hs & Hin). rewrite lookup_singleton_eq in Hs.
        injection Hs as <-. by apply AntithesisLogging_compatible.
    + constructor; [rewrite lookup_singleton_eq; eauto|].
      apply Forall_forall. intros d Hd%list_elem_of_filter.
      rewrite Forall_forall in Hcls. apply Hcls, Hd.
Qed.

Lemma make_hooks_compatible_twice_witness :
  seq make_hooks_compatible make_hooks_compatible
    (suite_of_hooks [VStr "A"; VStr "CleanEveryN"])
  = (with_hooks
       (VList (VStr <$> "AntithesisLogging" :: "AntithesisLogging"
                        :: filter (fun n => n ∉ INCOMPATIBLE_HOOKS) ["A"; "CleanEveryN"]))
       {[ "executor" := VDict {[ "hooks" := VList [VStr "A"; VStr "CleanEveryN"] ]} ]}
       {[ "hooks" := VList [VStr "A"; VStr "CleanEveryN"] ]}, Ok tt).
Proof.
  apply (proj1 make_hooks_compatible_twice
           {[ "executor" := VDict {[ "hooks" := VList [VStr "A"; VStr "CleanEveryN"] ]} ]}
           {[ "hooks" := VList [VStr "A"; VStr "CleanEveryN"] ]}
           ["A"; "CleanEveryN"]); [reflexivity | reflexivity | discriminate].
Defined.

(** X5.  When the first hook is a plain string, the hooks become the
    logging hook followed by the elements of the list that are not a
    string of INCOMPATIBLE_HOOKS: an entry is in the new list exactly when
    it is the logging hook or an entry of the old list that is not such a
    string.  So every entry that is not a string stays, a mapping whose
    class is an incompatible hook among them. *)
Theorem make_hooks_compatible_plain_keeps (m e : gmap string value) n rest :
  m !! "executor" = Some (VDict e) →
  e !! "hooks" = Some (VList (VStr n :: rest)) →
  ∃ new,
    make_hooks_compatible (VDict m) = (with_hooks (VList new) m e, Ok tt)
    ∧ (∀ h, h ∈ new ↔
            h = VStr "AntithesisLogging"
            ∨ (h ∈ VStr n :: rest
               ∧ ¬ ∃ s, h = VStr s ∧ s ∈ INCOMPATIBLE_HOOKS))
    ∧ (∀ h, h ∈ rest → is_str h = false → h ∈ new).
Proof.
  intros Hex Hh.
  rewrite (make_hooks_compatible_list m e (VStr n) rest Hex Hh). cbn [is_str].
  eexists. split; [reflexivity|].
  assert (Hmem : ∀ h, h ∈ VStr "AntithesisLogging"
                        :: filter (fun hook => in_INCOMPATIBLE_HOOKS hook = false)
                             (VStr n :: rest)
                      ↔ h = VStr "AntithesisLogging"
                        ∨ (h ∈ VStr n :: rest
                           ∧ ¬ ∃ s, h = VStr s ∧ s ∈ INCOMPATIBLE_HOOKS)).
  { intros h. rewrite elem_of_cons, list_elem_of_filter.
    rewrite <- in_INCOMPATIBLE_HOOKS_spec.
    destruct (in_INCOMPATIBLE_HOOKS h); intuition congruence. }
  split; [exact Hmem|].
  intros h Hin Hns. apply Hmem. right. split; [by right|].
  intros (s & -> & _). discriminate.
Qed.

Lemma make_hooks_compatible_plain_keeps_witness :
  ∃ new,
    make_hooks_compatible
      (suite_of_hooks [VStr "X"; VDict {[ "class" := VStr "CleanEveryN" ]}])
    = (with_hooks (VList new)
         {[ "executor" :=
              VDict {[ "hooks" := VList [VStr "X"; VDict {[ "class" := VStr "CleanEveryN" ]}] ]} ]}
         {[ "hooks" := VList [VStr "X"; VDict {[ "class" := VStr "CleanEveryN" ]}] ]},
       Ok tt)
    ∧ VDict {[ "class" := VStr "CleanEveryN" ]} ∈ new.
Proof.
  assert (Hex : ({[ "executor" :=
                      VDict {[ "hooks" :=
                        VList [VStr "X"; VDict {[ "class" := VStr "CleanEveryN" ]}] ]} ]}
                  : gmap string value) !! "executor"
                = Some (VDict {[ "hooks" :=
                          VList [VStr "X"; VDict {[ "class" := VStr "CleanEveryN" ]}] ]}))
    by (vm_compute; reflexivity).
  assert (Hh : ({[ "hooks" :=
                     VList [VStr "X"; VDict {[ "class" := VStr "CleanEveryN" ]}] ]}
                 : gmap string value) !! "hooks"
               = Some (VList [VStr "X"; VDict {[ "class" := VStr "CleanEveryN" ]}]))
    by (vm_compute; reflexivity).
  destruct (make_hooks_compatible_plain_keeps _ _ _ _ Hex Hh)
    as (new & Hm & _ & Hkeep).
  exists new. split; [exact Hm|].
  apply Hkeep; [apply list_elem_of_here | reflexivity].
Defined.

(** No name of INCOMPATIBLE_HOOKS is a single code point. *)
Lemma single_point_compatible p :
  single_point p = true → p ∉ INCOMPATIBLE_HOOKS.
Proof.
  intros Hp Hin. unfold INCOMPATIBLE_HOOKS in Hin.
  repeat (apply elem_of_cons in Hin as [->|Hin]; [by vm_compute in Hp|]).
  by apply elem_of_nil in Hin.
Qed.

Lemma chars_compatible s :
  filter (fun hook => in_INCOMPATIBLE_HOOKS hook = false) (chars s) = chars s.
Proof.
  unfold chars. pose proof (code_points_single s) as Hs.
  induction Hs as [|p l Hp _ IH]; [done|].
  rewrite fmap_cons, filter_cons_True, IH; [done|].
  simpl. apply bool_decide_eq_false. by apply single_point_compatible.
Qed.

(** X6.  Hooks given as one non-empty string are not refused: the string
    is read as a sequence, and the hooks become the logging hook followed
    by the characters of the string, one entry for each code point. *)
Theorem make_hooks_compatible_string (m e : gmap string value) s :
  m !! "executor" = Some (VDict e) →
  e !! "hooks" = Some (VStr s) →
  s ≠ "" →
  make_hooks_compatible (VDict m)
  = (with_hooks (VList (VStr "AntithesisLogging" :: chars s)) m e, Ok tt).
Proof.
  intros Hex Hh Hne. rewrite (make_hooks_compatible_str m e s Hex Hh).
  destruct s as [|c s]; [done|]. cbn [String.eqb].
  by rewrite chars_compatible.
Qed.

Lemma make_hooks_compatible_string_witness :
  make_hooks_compatible
    (VDict {[ "executor" := VDict {[ "hooks" := VStr "ab" ]} ]})
  = (with_hooks (VList (VStr "AntithesisLogging" :: chars "ab"))
       {[ "executor" := VDict {[ "hooks" := VStr "ab" ]} ]}
       {[ "hooks" := VStr "ab" ]}, Ok tt)
  ∧ make_hooks_compatible
      (VDict {[ "executor" := VDict {[ "hooks" := VStr "日x" ]} ]})
    = (VDict {[ "executor" :=
         VDict {[ "hooks" :=
           VList [VStr "AntithesisLogging"; VStr "日"; VStr "x"] ]} ]}, Ok tt).
Proof.
  split.
  - apply (make_hooks_compatible_string
             {[ "executor" := VDict {[ "hooks" := VStr "ab" ]} ]}
             {[ "hooks" := VStr "ab" ]} "ab");
      [reflexivity | reflexivity | discriminate].
  - rewrite (make_hooks_compatible_string
               {[ "executor" := VDict {[ "hooks" := VStr "日x" ]} ]}
               {[ "hooks" := VStr "日x" ]} "日x");
      [vm_compute; reflexivity | reflexivity | reflexivity | discriminate].
Defined.

(** * What an exception leaves behind *)

Lemma setdefault_path_empty_Ok (leaf : stmt) path :
  (leaf (VDict ∅)).2 = Ok tt →
  (setdefault_path path leaf (VDict ∅)).2 = Ok tt.
Proof.
  intros Hleaf. induction path as [|k path IH]; simpl; [done|].
  rewrite lookup_empty. simpl.
  by destruct (setdefault_path path leaf (VDict ∅)).
Qed.

(** A chain of setdefault that raises has changed nothing, when that holds
    of its leaf and the leaf raises nothing on a new empty dict: the chain
    creates entries only below a missing key, where nothing can fail. *)
Lemma setdefault_path_raise (leaf : stmt) (P : exn → Prop) path :
  P AttributeError →
  (leaf (VDict ∅)).2 = Ok tt →
  (∀ v v' x, leaf v = (v', Raise x) → v' = v ∧ P x) →
  ∀ v v' x, setdefault_path path leaf v = (v', Raise x) → v' = v ∧ P x.
Proof.
  intros HP Hempty Hleaf. induction path as [|k path IH]; intros v v' x; simpl.
  - apply Hleaf.
  - destruct v as [| | | | |m]; try (by intros [= <- <-]).
    destruct (setdefault_path path leaf (default (VDict ∅) (m !! k)))
      as [c r'] eqn:Hrec.
    intros [= <- ->]. destruct (m !! k) as [c0|] eqn:Hk; simpl in Hrec.
    + destruct (IH _ _ _ Hrec) as [-> HPx]. by rewrite insert_id.
    + pose proof (setdefault_path_empty_Ok leaf path Hempty) as Hok.
      rewrite Hrec in Hok. discriminate.
Qed.

Lemma update_test_data_raise_unchanged suite s' x :
  update_test_data suite = (s', Raise x) → s' = suite ∧ x = AttributeError.
Proof.
  rewrite update_test_data_unfold.
  apply (setdefault_path_raise set_useActionPermittedFile
           (fun x => x = AttributeError)); [done..|].
  intros v v' y. destruct v; try discriminate; by intros [= <- <-].
Qed.

(** X7.  update_test_data raises only AttributeError, only on a suite
    that does not have mappings along the path to [TestData], and then it
    has changed nothing. *)
Theorem update_test_data_raise suite s' x :
  update_test_data suite = (s', Raise x) →
  s' = suite ∧ x = AttributeError
  ∧ mappings_along TestData_path suite = false.
Proof.
  intros Hu.
  assert (Hshape : mappings_along TestData_path suite = false).
  { destruct (mappings_along TestData_path suite) eqn:Hs; [|done].
    apply update_test_data_Ok in Hs. rewrite Hu in Hs. discriminate. }
  by apply update_test_data_raise_unchanged in Hu as [-> ->].
Qed.

Lemma update_test_data_raise_witness :
  update_test_data (VDict {[ "executor" := VDict {[ "config" := VNone ]} ]})
  = (VDict {[ "executor" := VDict {[ "config" := VNone ]} ]}, Raise AttributeError).
Proof.
  destruct (update_test_data (VDict {[ "executor" := VDict {[ "config" := VNone ]} ]}))
    as [s' [[]|x]] eqn:Hu.
  - vm_compute in Hu. discriminate.
  - destruct (update_test_data_raise _ _ _ Hu) as (-> & -> & _). reflexivity.
Defined.

Lemma append_eval_raise v v' x :
  append_eval v = (v', Raise x) →
  v' = v ∧ (x = AttributeError ∨ x = TypeError).
Proof.
  unfold append_eval, seq, iadd_item, on_self.
  destruct v as [| | | | |so]; try (intros [= <- <-]; auto). simpl.
  rewrite lookup_insert_eq.
  destruct (so !! "eval") as [old|] eqn:Hold; simpl.
  - destruct old; simpl; try discriminate;
      intros [= <- <-]; rewrite insert_id by done; auto.
  - discriminate.
Qed.

Lemma update_shell_raise_unchanged suite s' x :
  update_shell suite = (s', Raise x) →
  s' = suite ∧ (x = AttributeError ∨ x = TypeError).
Proof.
  rewrite update_shell_unfold.
  apply (setdefault_path_raise append_eval
           (fun x => x = AttributeError ∨ x = TypeError)); [by left|done|].
  apply append_eval_raise.
Qed.

(** X8.  update_shell raises only AttributeError or TypeError, and then
    it has changed nothing; it raises TypeError when [eval] is there and
    is neither a string nor a list. *)
Theorem update_shell_raise :
  (∀ suite s' x,
     update_shell suite = (s', Raise x) →
     s' = suite ∧ (x = AttributeError ∨ x = TypeError))
  ∧ (∀ suite e,
       lookup_path eval_path suite = Some e →
       mappings_along shell_options_path suite = true →
       is_str e = false → is_list e = false →
       update_shell suite = (suite, Raise TypeError)).
Proof.
  pose proof update_shell_raise_unchanged as Hraise.
  split; [exact Hraise|].
  intros suite e He Hshape Hs Hl.
  destruct (setdefault_path_run _ _ Hshape) as (so & Hso & Hrun).
  destruct (Hrun append_eval) as (s' & Hu & _).
  assert (Hleaf : (append_eval (VDict so)).2 = Raise TypeError).
  { unfold eval_path in He. rewrite lookup_path_app in He.
    destruct Hso as [Hso|[Hso _]]; rewrite Hso in He; [|discriminate].
    simpl in He. destruct (so !! "eval") as [e'|] eqn:Hev; [|discriminate].
    injection He as ->.
    unfold append_eval, seq, iadd_item, on_self. simpl.
    rewrite lookup_insert_eq, Hev. by destruct e. }
  rewrite Hleaf, <- update_shell_unfold in Hu.
  by destruct (Hraise _ _ _ Hu) as [-> _].
Qed.

Lemma update_shell_raise_witness :
  update_shell
    (VDict {[ "executor" :=
       VDict {[ "config" := VDict {[ "shell_options" := VDict {[ "eval" := VNone ]} ]} ]} ]})
  = (VDict {[ "executor" :=
       VDict {[ "config" := VDict {[ "shell_options" := VDict {[ "eval" := VNone ]} ]} ]} ]},
     Raise TypeError).
Proof.
  apply (proj2 update_shell_raise _ VNone); reflexivity.
Defined.

(** X9.  On a suite with mappings along [executor.config.shell_options]
    whose [eval] is a list, update_shell raises nothing and extends the
    list by the characters of its statement, one entry each. *)
Theorem update_shell_list suite l :
  mappings_along shell_options_path suite = true →
  lookup_path eval_path suite = Some (VList l) →
  ∃ suite',
    update_shell suite = (suite', Ok tt)
    ∧ lookup_path eval_path suite' = Some (VList (l ++ chars jsTestLog_noop)).
Proof.
  intros Hshape He.
  destruct (setdefault_path_run _ _ Hshape) as (so & Hso & Hrun).
  destruct (Hrun append_eval) as (s' & Hu & Hl).
  assert (Hleaf : append_eval (VDict so)
                  = (VDict (<["eval" := VList (l ++ chars jsTestLog_noop)]> so), Ok tt)).
  { unfold eval_path in He. rewrite lookup_path_app in He.
    destruct Hso as [Hso|[Hso _]]; rewrite Hso in He; [|discriminate].
    simpl in He. destruct (so !! "eval") as [e'|] eqn:Hev; [|discriminate].
    injection He as ->.
    unfold append_eval, seq, iadd_item, on_self. simpl.
    rewrite lookup_insert_eq, Hev. simpl. by rewrite insert_insert_eq. }
  rewrite Hleaf in Hu, Hl. cbn [fst snd] in Hu, Hl.
  exists s'. split; [by rewrite update_shell_unfold|].
  unfold eval_path. rewrite lookup_path_app, Hl. simpl.
  by rewrite lookup_insert_eq.
Qed.

Lemma update_shell_list_witness :
  ∃ suite',
    update_shell
      (VDict {[ "executor" :=
         VDict {[ "config" :=
           VDict {[ "shell_options" := VDict {[ "eval" := VList [VInt 1] ]} ]} ]} ]})
    = (suite', Ok tt)
    ∧ lookup_path eval_path suite'
      = Some (VList ([VInt 1] ++ chars jsTestLog_noop)).
Proof.
  apply update_shell_list; reflexivity.
Defined.

Lemma update_exclude_tags_raise_unchanged suite s' x :
  update_exclude_tags suite = (s', Raise x) → s' = suite ∧ x = AttributeError.
Proof.
  intros Hu.
  destruct (mappings_along ["selector"] suite) eqn:Hshape.
  - destruct (mappings_along_dict _ _ Hshape) as [m ->].
    rewrite (update_exclude_tags_dict m Hshape) in Hu. simpl in Hu.
    destruct (negb _); [discriminate|].
    destruct (default VNone _); simpl in Hu; try discriminate;
      by injection Hu as <- <-.
  - destruct suite as [| | | | |m].
    1-5: by injection Hu as <- <-.
    revert Hu. unfold update_exclude_tags, seq. simpl in *.
    destruct (m !! "selector") as [sel|] eqn:Hsel; [|discriminate].
    simpl. rewrite lookup_insert_eq. simpl.
    destruct sel; try discriminate; intros [= <- <-];
      by rewrite insert_id.
Qed.

(** X10.  update_exclude_tags raises only AttributeError, and then it has
    changed nothing; it does so when the tags are there, truthy and not a
    list, as a single non-empty string is. *)
Theorem update_exclude_tags_raise :
  (∀ suite s' x,
     update_exclude_tags suite = (s', Raise x) → s' = suite ∧ x = AttributeError)
  ∧ (∀ (m : gmap string value) t,
       mappings_along ["selector"] (VDict m) = true →
       lookup_path tags_path (VDict m) = Some t →
       truthy t = true → is_list t = false →
       update_exclude_tags (VDict m) = (VDict m, Raise AttributeError)).
Proof.
  split; [apply update_exclude_tags_raise_unchanged|].
  - intros m t Hshape Ht Htr Hl.
    rewrite (update_exclude_tags_dict m Hshape).
    rewrite (lookup_tags m Hshape) in Ht. rewrite Ht. simpl. rewrite Htr. simpl.
    by destruct t.
Qed.

Lemma update_exclude_tags_raise_witness :
  update_exclude_tags
    (VDict {[ "selector" := VDict {[ "exclude_with_any_tags" := VStr "foo" ]} ]})
  = (VDict {[ "selector" := VDict {[ "exclude_with_any_tags" := VStr "foo" ]} ]},
     Raise AttributeError).
Proof.
  apply (proj2 update_exclude_tags_raise
           {[ "selector" := VDict {[ "exclude_with_any_tags" := VStr "foo" ]} ]}
           (VStr "foo")); reflexivity.
Defined.

(** One application, on tags that are falsy or a list. *)
Lemma update_exclude_tags_appends (m : gmap string value) :
  mappings_along ["selector"] (VDict m) = true →
  (∀ t, lookup_path tags_path (VDict m) = Some t →
        truthy t = false ∨ ∃ l, t = VList l) →
  update_exclude_tags (VDict m)
  = (with_tags (VList (tags_of (VDict m) ++ [VStr "antithesis_incompatible"])) m,
     Ok tt).
Proof.
  intros Hshape Htags. rewrite (update_exclude_tags_dict m Hshape).
  unfold tags_of. rewrite (lookup_tags m Hshape) in *.
  destruct (selector_of m !! "exclude_with_any_tags") as [t|]; simpl; [|done].
  destruct (Htags t eq_refl) as [Hf|[l ->]].
  - rewrite Hf. simpl. destruct t as [| | | |l|]; try done. by destruct l.
  - by destruct l.
Qed.

(** X11.  update_exclude_tags is not idempotent: on tags that are
    missing, falsy or a list, two applications leave the tags the suite
    came with followed by "antithesis_incompatible" twice. *)
Theorem update_exclude_tags_twice (m : gmap string value) :
  mappings_along ["selector"] (VDict m) = true →
  (∀ t, lookup_path tags_path (VDict m) = Some t →
        truthy t = false ∨ ∃ l, t = VList l) →
  seq update_exclude_tags update_exclude_tags (VDict m)
  = (with_tags
       (VList (tags_of (VDict m)
               ++ [VStr "antithesis_incompatible"; VStr "antithesis_incompatible"])) m,
     Ok tt).
Proof.
  intros Hshape Htags. unfold seq.
  rewrite (update_exclude_tags_appends m Hshape Htags). unfold with_tags at 1.
  set (new := VList (tags_of (VDict m) ++ [VStr "antithesis_incompatible"])).
  set (m' := <["selector" := VDict (<["exclude_with_any_tags" := new]> (selector_of m))]> m).
  assert (Hsel' : selector_of m' = <["exclude_with_any_tags" := new]> (selector_of m)).
  { unfold selector_of at 1, m'. by rewrite lookup_insert_eq. }
  assert (Hshape' : mappings_along ["selector"] (VDict m') = true).
  { simpl. unfold m'. by rewrite lookup_insert_eq. }
  assert (Ht' : lookup_path tags_path (VDict m') = Some new).
  { rewrite (lookup_tags m' Hshape'), Hsel'. apply lookup_insert_eq. }
  rewrite (update_exclude_tags_appends m' Hshape').
  2:{ intros t. rewrite Ht'. intros [= <-]. right. unfold new. eauto. }
  unfold tags_of at 1. rewrite Ht'. unfold new at 1.
  unfold with_tags. rewrite Hsel'. unfold m'.
  rewrite !insert_insert_eq. by rewrite <- app_assoc.
Qed.

Lemma update_exclude_tags_twice_witness :
  seq update_exclude_tags update_exclude_tags
    (VDict {[ "selector" := VDict {[ "exclude_with_any_tags" := VList [VStr "foo"] ]} ]})
  = (VDict {[ "selector" :=
       VDict {[ "exclude_with_any_tags" :=
         VList [VStr "foo"; VStr "antithesis_incompatible";
                VStr "antithesis_incompatible"] ]} ]},
     Ok tt).
Proof.
  rewrite (update_exclude_tags_twice
             {[ "selector" := VDict {[ "exclude_with_any_tags" := VList [VStr "foo"] ]} ]}).
  - vm_compute. reflexivity.
  - reflexivity.
  - intros t H. vm_compute in H. injection H as <-. right. eauto.
Defined.

(** * The data model is kept *)

(** The shape along a path that goes on below [p] depends on the shape
    along [p] and on what is under the next key. *)
Lemma mappings_along_below p k rest v v' :
  mappings_along (p ++ k :: rest) v = true →
  mappings_along p v' = true →
  lookup_path (p ++ [k]) v' = lookup_path (p ++ [k]) v →
  mappings_along (p ++ k :: rest) v' = true.
Proof.
  revert v v'. induction p as [|a p IH]; intros v v' Hv Hv' Heq.
  - destruct v' as [| | | | |m']; try discriminate. simpl in *.
    destruct (m' !! k) as [c|]; [|done]. simpl in Heq.
    destruct v as [| | | | |m]; try discriminate.
    destruct (m !! k) as [c0|]; [|discriminate]. by injection Heq as ->.
  - destruct v' as [| | | | |m']; try discriminate. simpl in *.
    destruct (m' !! a) as [c'|]; [|done]. simpl in Heq.
    destruct v as [| | | | |m]; try discriminate.
    destruct (m !! a) as [c|]; simpl in Heq.
    + by apply (IH c).
    + apply (IH (VDict ∅)); [apply mappings_along_empty | done |].
      rewrite Heq. symmetry. destruct p; simpl; by rewrite lookup_empty.
Qed.

Lemma lookup_path_mappings_1 k q v y :
  lookup_path (k :: q) v = Some y → q ≠ [] → mappings_along [k] v = true.
Proof.
  intros Hl Hq. destruct v as [| | | | |m]; try discriminate. simpl in *.
  destruct (m !! k) as [c|]; [|done]. simpl in Hl.
  destruct q; [done|]. by destruct c.
Qed.

(** make_hooks_compatible leaves hooks of the data model. *)
Lemma make_hooks_compatible_data_model suite s' r :
  mappings_along ["executor"] suite = true →
  (∀ h, lookup_path ["executor"; "hooks"] suite = Some h → hooks_of_data_model h) →
  make_hooks_compatible suite = (s', r) →
  ∀ h, lookup_path ["executor"; "hooks"] s' = Some h → hooks_of_data_model h.
Proof.
  intros Hshape Hhooks Hm. destruct suite as [| | | | |m]; try discriminate.
  simpl in Hshape.
  destruct (m !! "executor") as [ex|] eqn:Hex.
  2:{ revert Hm. unfold make_hooks_compatible. simpl. rewrite Hex. simpl.
      rewrite lookup_empty. simpl. by intros [= <- _]. }
  destruct ex as [| | | | |e]; try discriminate.
  destruct (e !! "hooks") as [h0|] eqn:Hh.
  2:{ revert Hm. unfold make_hooks_compatible. simpl. rewrite Hex. simpl.
      rewrite Hh. simpl. by intros [= <- _]. }
  assert (Hh0 : hooks_of_data_model h0).
  { apply Hhooks. simpl. rewrite Hex. simpl. by rewrite Hh. }
  assert (Hnew : ∀ new, hooks_of_data_model new →
            ∀ h, lookup_path ["executor"; "hooks"] (with_hooks new m e) = Some h →
                 hooks_of_data_model h).
  { intros new Hn h. unfold with_hooks. simpl. rewrite lookup_insert_eq. simpl.
    rewrite lookup_insert_eq. simpl. by intros [= <-]. }
  destruct Hh0 as [Hf|[(names & ->)|(ds & -> & Hcls)]].
  - revert Hm. unfold make_hooks_compatible. simpl. rewrite Hex. simpl.
    rewrite Hh. simpl. rewrite Hf. by intros [= <- _].
  - destruct names as [|n names].
    { revert Hm. unfold make_hooks_compatible. simpl. rewrite Hex. simpl.
      rewrite Hh. simpl. by intros [= <- _]. }
    rewrite (make_hooks_compatible_plain m e (n :: names) Hex Hh) in Hm by done.
    injection Hm as <- _. apply Hnew. right. left.
    by exists ("AntithesisLogging"
               :: filter (fun n0 => n0 ∉ INCOMPATIBLE_HOOKS) (n :: names)).
  - destruct ds as [|d ds].
    { revert Hm. unfold make_hooks_compatible. simpl. rewrite Hex. simpl.
      rewrite Hh. simpl. by intros [= <- _]. }
    rewrite (make_hooks_compatible_structured m e (d :: ds) Hex Hh) in Hm by done.
    injection Hm as <- _. apply Hnew. right. right.
    exists ({[ "class" := VStr "AntithesisLogging" ]}
            :: filter (fun d0 => ¬ class_incompatible d0) (d :: ds)).
    split; [done|].
    constructor; [rewrite lookup_singleton_eq; eauto|].
    apply Forall_forall. intros d' Hd%list_elem_of_filter.
    rewrite Forall_forall in Hcls. apply Hcls, Hd.
Qed.

Lemma make_external_keeps_data_model suite s v :
  data_model suite →
  make_external suite = (s, Ok v) →
  data_model s
  ∧ lookup_path eval_path s = Some (VStr (eval_of suite +:+ jsTestLog_noop))
  ∧ lookup_path tags_path s
    = Some (VList (tags_of suite ++ [VStr "antithesis_incompatible"])).
Proof.
  intros (Htd & Hsel & Heval & Htags & Hhooks) Hext.
  apply make_external_Ok_inv in Hext
    as (-> & s1 & s2 & s3 & s4 & Hdel & Hmhc & Hutd & Hush & Huet).
  pose proof (delete_archival_shape _ _ Hdel) as Hs1.
  pose proof (make_hooks_compatible_shape _ _ _ Hmhc Hs1) as Hs2.
  destruct (make_hooks_compatible_beside _ _ _ Hmhc) as [Htop2 Hex2].
  assert (Hs3 : mappings_along TestData_path s3 = true).
  { apply update_test_data_Ok. rewrite update_test_data_unfold in *.
    by rewrite (setdefault_path_twice _ _ set_useActionPermittedFile_twice
                  _ _ _ Hutd). }
  (* update_shell *)
  assert (Heval3 : lookup_path eval_path s3 = lookup_path eval_path suite).
  { change eval_path with ("executor" :: "config" :: ["shell_options"; "eval"]).
    rewrite_beside (update_test_data_beside _ _ _ shell_options_path "global_vars"
                      ["TestData"] "eval" [] Hutd eq_refl ltac:(done)).
    rewrite (Hex2 "config" ["shell_options"; "eval"]) by done.
    by apply (delete_archival_below _ _ _ "config" _ Hdel). }
  destruct (update_shell_appends s3 (eval_of suite)) as (s4' & Hush' & He4 & Hs4).
  { by apply (mappings_along_prefix shell_options_path ["global_vars"; "TestData"]). }
  { unfold eval_of. rewrite Heval3.
    destruct (lookup_path eval_path suite) as [e|] eqn:He; [|by right]. left.
    specialize (Heval e eq_refl). by destruct e. }
  rewrite Hush in Hush'. injection Hush' as <-.
  (* update_exclude_tags *)
  assert (Hsel4 : ∀ q, lookup_path ("selector" :: q) s4
                       = lookup_path ("selector" :: q) suite).
  { intros q.
    rewrite_beside (update_shell_beside _ _ _ [] "executor"
                      ["config"; "shell_options"] "selector" q Hush eq_refl
                      ltac:(done)).
    rewrite_beside (update_test_data_beside _ _ _ [] "executor"
                      ["config"; "shell_options"; "global_vars"; "TestData"]
                      "selector" q Hutd eq_refl ltac:(done)).
    rewrite Htop2 by done. by apply (delete_archival_beside _ _ _ _ _ Hdel). }
  assert (Hshape4 : mappings_along ["selector"] s4 = true).
  { apply mappings_along_1. apply mappings_along_1 in Hsel as [_ Hsel]. split.
    - destruct (mappings_along_dict _ _ Hs4) as [m4 ->]. done.
    - intros x. rewrite Hsel4. apply Hsel. }
  destruct (mappings_along_dict _ _ Hshape4) as [m4 ->].
  assert (Htags4 : tags_of (VDict m4) = tags_of suite).
  { unfold tags_of, tags_path. by rewrite Hsel4. }
  rewrite (update_exclude_tags_appends m4 Hshape4) in Huet.
  2:{ intros t. unfold tags_path. rewrite Hsel4. apply Htags. }
  injection Huet as <-. rewrite Htags4.
  set (new := VList (tags_of suite ++ [VStr "antithesis_incompatible"])).
  assert (Hbeside : ∀ k q, k ≠ "selector" →
            lookup_path (k :: q) (with_tags new m4) = lookup_path (k :: q) (VDict m4)).
  { intros k q Hk. unfold with_tags. simpl. by rewrite lookup_insert_ne. }
  assert (Hnew : lookup_path tags_path (with_tags new m4) = Some new).
  { unfold with_tags. simpl. rewrite lookup_insert_eq. simpl.
    by rewrite lookup_insert_eq. }
  assert (He : lookup_path eval_path (with_tags new m4)
               = Some (VStr (eval_of suite +:+ jsTestLog_noop))).
  { rewrite <- He4. by apply Hbeside. }
  split; [|by split].
  split; [|split; [|split; [|split]]].
  - apply (mappings_along_below [] "executor"
             ["config"; "shell_options"; "global_vars"; "TestData"] (VDict m4));
      [|done|by apply Hbeside].
    apply (mappings_along_below shell_options_path "global_vars" ["TestData"] s3);
      [exact Hs3 | exact Hs4 |].
    by apply (update_shell_below _ _ _ "global_vars" [] Hush).
  - unfold with_tags. simpl. by rewrite lookup_insert_eq.
  - intros e. rewrite He. by intros [= <-].
  - intros t. rewrite Hnew. intros [= <-]. right. unfold new. eauto.
  - intros h. rewrite Hbeside by done.
    rewrite_beside (update_shell_beside _ _ _ ["executor"] "config"
                      ["shell_options"] "hooks" [] Hush eq_refl ltac:(done)).
    rewrite_beside (update_test_data_beside _ _ _ ["executor"] "config"
                      ["shell_options"; "global_vars"; "TestData"] "hooks" []
                      Hutd eq_refl ltac:(done)).
    apply (make_hooks_compatible_data_model s1 s2 (Ok tt) Hs1); [|exact Hmhc].
    intros h1. rewrite (delete_archival_below _ _ _ "hooks" [] Hdel) by done.
    apply Hhooks.
Qed.

(** X12.  make_external keeps the data model: the suite it returns is a
    suite of the data model again, its [eval] is the string the suite
    came with followed by the statement of update_shell, and its
    exclusion tags are the tags it came with followed by
    "antithesis_incompatible". *)
Theorem make_external_data_model suite s v :
  data_model suite →
  make_external suite = (s, Ok v) →
  data_model s
  ∧ lookup_path eval_path s = Some (VStr (eval_of suite +:+ jsTestLog_noop))
  ∧ lookup_path tags_path s
    = Some (VList (tags_of suite ++ [VStr "antithesis_incompatible"])).
Proof. apply make_external_keeps_data_model. Qed.

Lemma data_model_example_suite : data_model example_suite.
Proof.
  repeat split.
  - intros e H. vm_compute in H. discriminate.
  - intros t H. vm_compute in H. discriminate.
  - intros h H. vm_compute in H. injection H as <-.
    right. left. exists ["CleanEveryN"]. reflexivity.
Defined.

Lemma make_external_data_model_witness :
  data_model example_suite_external.
Proof.
  assert (H : make_external example_suite
              = (example_suite_external, Ok example_suite_external))
    by (vm_compute; reflexivity).
  exact (proj1 (make_external_data_model _ _ _ data_model_example_suite H)).
Defined.

(** X13.  make_external is not idempotent on the data model: a second
    application raises nothing either, and leaves the statement of
    update_shell twice at the end of [eval] and the tag
    "antithesis_incompatible" twice at the end of the exclusion tags, so
    the suite it returns is not the suite of the first application. *)
Theorem make_external_twice suite :
  data_model suite →
  ∃ s s',
    make_external suite = (s, Ok s)
    ∧ make_external s = (s', Ok s')
    ∧ lookup_path eval_path s'
      = Some (VStr ((eval_of suite +:+ jsTestLog_noop) +:+ jsTestLog_noop))
    ∧ lookup_path tags_path s'
      = Some (VList (tags_of suite
                     ++ [VStr "antithesis_incompatible";
                         VStr "antithesis_incompatible"]))
    ∧ s' ≠ s.
Proof.
  intros Hdm.
  destruct (make_external_Ok suite Hdm) as [s Hs].
  destruct (make_external_keeps_data_model _ _ _ Hdm Hs) as (Hdm' & He & Ht).
  destruct (make_external_Ok s Hdm') as [s' Hs'].
  destruct (make_external_keeps_data_model _ _ _ Hdm' Hs') as (_ & He' & Ht').
  exists s, s'. split; [done|]. split; [done|].
  assert (Heo : eval_of s = eval_of suite +:+ jsTestLog_noop).
  { unfold eval_of at 1. by rewrite He. }
  assert (Hto : tags_of s = tags_of suite ++ [VStr "antithesis_incompatible"]).
  { unfold tags_of at 1. by rewrite Ht. }
  rewrite Heo in He'. rewrite Hto, <- app_assoc in Ht'.
  split; [done|]. split; [done|].
  intros ->. rewrite He in He'. injection He' as He'.
  symmetry in He'. apply append_eq_self in He'. discriminate.
Qed.

Lemma make_external_twice_witness :
  ∃ s s',
    make_external example_suite = (s, Ok s)
    ∧ make_external s = (s', Ok s')
    ∧ s' ≠ s.
Proof.
  destruct (make_external_twice example_suite data_model_example_suite)
    as (s & s' & H1 & H2 & _ & _ & Hne).
  exists s, s'. split; [exact H1|]. split; [exact H2 | exact Hne].
Defined.

(** * The exceptions of make_external *)

Lemma delete_archival_raise_kinds suite s' x :
  delete_archival suite = (s', Raise x) → x = AttributeError ∨ x = TypeError.
Proof.
  destruct suite as [| | | | |m]; try (intros [= _ <-]; auto).
  rewrite delete_archival_dict.
  destruct (delete "archive" m !! "executor") as [ex|]; [|discriminate].
  destruct ex; simpl; try discriminate; intros [= _ <-]; auto.
Qed.

Lemma make_hooks_compatible_raise_kinds suite s' x :
  make_hooks_compatible suite = (s', Raise x) →
  x = AttributeError ∨ x = TypeError ∨ x = KeyError ∨ ∃ v, x = RuntimeError v.
Proof.
  destruct suite as [| | | | |m];
    try (unfold make_hooks_compatible; simpl; intros [= _ <-]; auto).
  destruct (m !! "executor") as [ex|] eqn:Hex.
  2:{ unfold make_hooks_compatible. simpl. rewrite Hex. simpl.
      rewrite lookup_empty. simpl. discriminate. }
  destruct ex as [| | | | |e];
    try (unfold make_hooks_compatible; simpl; rewrite Hex; simpl;
         intros [= _ <-]; auto).
  destruct (e !! "hooks") as [h|] eqn:Hh.
  2:{ unfold make_hooks_compatible. simpl. rewrite Hex. simpl. rewrite Hh.
      simpl. discriminate. }
  destruct h as [|b|n|s|l|d].
  1-3,6: unfold make_hooks_compatible; simpl; rewrite Hex; simpl; rewrite Hh; simpl.
  - discriminate.
  - destruct b; [|discriminate]. intros [= _ <-]. auto.
  - destruct (negb (Z.eqb n 0)); [|discriminate]. intros [= _ <-]. auto.
  - destruct (negb (Nat.eqb (size d) 0)); [|discriminate]. intros [= _ <-]. auto.
  - rewrite (make_hooks_compatible_str m e s Hex Hh).
    destruct (String.eqb s ""); discriminate.
  - destruct l as [|h0 rest].
    { unfold make_hooks_compatible. simpl. rewrite Hex. simpl. rewrite Hh.
      simpl. discriminate. }
    rewrite (make_hooks_compatible_list m e h0 rest Hex Hh).
    destruct (is_str h0); [discriminate|].
    destruct (is_dict h0).
    + destruct (keep_by_class (h0 :: rest)) eqn:Hk; [discriminate|].
      intros [= _ <-]. apply keep_by_class_raise in Hk as [->| ->]; auto.
    + intros [= _ <-]. eauto 10.
Qed.

(** X14.  make_external raises only AttributeError, TypeError, KeyError
    or the RuntimeError of make_hooks_compatible, and never IndexError:
    the first hook is read only from hooks that are truthy.  A KeyError
    or a RuntimeError comes from make_hooks_compatible, so the suite is
    then as delete_archival left it. *)
Theorem make_external_exceptions suite s x :
  make_external suite = (s, Raise x) →
  (x = AttributeError ∨ x = TypeError ∨ x = KeyError ∨ ∃ v, x = RuntimeError v)
  ∧ x ≠ IndexError
  ∧ (x = KeyError ∨ (∃ v, x = RuntimeError v) → delete_archival suite = (s, Ok tt)).
Proof.
  intros Hext.
  assert (Hcases :
    (x = AttributeError ∨ x = TypeError)
    ∨ ((x = KeyError ∨ ∃ v, x = RuntimeError v)
       ∧ delete_archival suite = (s, Ok tt))).
  { revert Hext. unfold make_external, make_external_steps, seq.
    destruct (delete_archival suite) as [s1 [[]|x1]] eqn:Hdel.
    2:{ intros [= <- <-]. left. by apply delete_archival_raise_kinds in Hdel. }
    destruct (make_hooks_compatible s1) as [s2 [[]|x2]] eqn:Hmhc.
    2:{ intros [= <- <-].
        pose proof (make_hooks_compatible_raise _ _ _ Hmhc) as ->.
        apply make_hooks_compatible_raise_kinds in Hmhc
          as [?|[?|[?|?]]]; auto. }
    destruct (update_test_data s2) as [s3 [[]|x3]] eqn:Hutd.
    2:{ intros [= <- <-]. left. left.
        by apply update_test_data_raise_unchanged in Hutd as (_ & ->). }
    destruct (update_shell s3) as [s4 [[]|x4]] eqn:Hush.
    2:{ intros [= <- <-]. left.
        by apply update_shell_raise_unchanged in Hush as [_ ?]. }
    destruct (update_exclude_tags s4) as [s5 [[]|x5]] eqn:Huet; [discriminate|].
    intros [= <- <-]. left. left.
    by apply update_exclude_tags_raise_unchanged in Huet as [_ ->]. }
  split; [|split].
  - destruct Hcases as [[?|?]|[[?|?] _]]; auto.
  - destruct Hcases as [[->| ->]|[[->|[v ->]] _]]; discriminate.
  - intros Hk. destruct Hcases as [[->| ->]|[_ ?]]; [| |done];
      destruct Hk as [?|[v ?]]; discriminate.
Qed.

Lemma make_external_exceptions_witness :
  ∃ s, delete_archival C7_doc = (s, Ok tt)
       ∧ make_external C7_doc = (s, Raise (RuntimeError VNone)).
Proof.
  assert (H : make_external C7_doc
              = (VDict {[ "executor" := VDict {[ "hooks" := VList [VNone] ]} ]},
                 Raise (RuntimeError VNone))) by (vm_compute; reflexivity).
  eexists. split; [|exact H].
  apply (proj2 (proj2 (make_external_exceptions _ _ _ H))). right. eauto.
Defined.

(** * The order of update_test_data and update_shell *)

Lemma setdefault_path_app p q (leaf : stmt) v :
  setdefault_path (p ++ q) leaf v = setdefault_path p (setdefault_path q leaf) v.
Proof.
  revert v. induction p as [|k p IH]; intros v; [done|]. simpl.
  destruct v; try done. by rewrite IH.
Qed.

(** Two chains along the same path are one chain that runs both leaves. *)
Lemma setdefault_path_seq path (l1 l2 : stmt) v :
  seq (setdefault_path path l1) (setdefault_path path l2) v
  = setdefault_path path (seq l1 l2) v.
Proof.
  revert v. induction path as [|k path IH]; intros v; [done|].
  destruct v as [| | | | |m]; try done.
  specialize (IH (default (VDict ∅) (m !! k))).
  unfold seq in *. simpl.
  destruct (setdefault_path path l1 (default (VDict ∅) (m !! k))) as [c1 [[]|x]].
  - rewrite <- IH. simpl. rewrite lookup_insert_eq. simpl.
    destruct (setdefault_path path l2 c1) as [c2 r2]. by rewrite insert_insert_eq.
  - by rewrite <- IH.
Qed.

(** A chain depends on its leaf through the object it reaches only. *)
Lemma setdefault_path_ext path (l1 l2 : stmt) v (d0 : gmap string value) :
  mappings_along path v = true →
  (lookup_path path v = Some (VDict d0)
   ∨ (lookup_path path v = None ∧ d0 = ∅)) →
  l1 (VDict d0) = l2 (VDict d0) →
  setdefault_path path l1 v = setdefault_path path l2 v.
Proof.
  intros Hv Hd0 Hl. revert v Hv Hd0.
  induction path as [|k path IH]; intros v Hv Hd0; simpl in *.
  - destruct Hd0 as [[= ->]|[? _]]; done.
  - destruct v as [| | | | |m]; try done.
    destruct (m !! k) as [c|]; simpl in *.
    + by rewrite (IH c).
    + rewrite (IH (VDict ∅)); [done | apply mappings_along_empty |].
      destruct Hd0 as [?|[_ ->]]; [done|].
      destruct path; [by left|right]. by rewrite lookup_path_empty.
Qed.

Lemma mappings_along_reached p q v (d0 : gmap string value) :
  mappings_along (p ++ q) v = true →
  (lookup_path p v = Some (VDict d0) ∨ (lookup_path p v = None ∧ d0 = ∅)) →
  mappings_along q (VDict d0) = true.
Proof.
  revert v. induction p as [|a p IH]; intros v Hv Hd0; simpl in *.
  - by destruct Hd0 as [[= ->]|[? _]].
  - destruct v as [| | | | |m]; try done.
    destruct (m !! a) as [c|]; simpl in *; [by apply (IH c)|].
    destruct Hd0 as [?|[_ ->]]; [done|]. apply mappings_along_empty.
Qed.

(** Under [shell_options] the two steps write different keys. *)
Lemma TestData_eval_commute (so : gmap string value) :
  mappings_along ["global_vars"; "TestData"] (VDict so) = true →
  (∀ e, so !! "eval" = Some e → is_str e = true) →
  seq (setdefault_path ["global_vars"; "TestData"] set_useActionPermittedFile)
      append_eval (VDict so)
  = seq append_eval
      (setdefault_path ["global_vars"; "TestData"] set_useActionPermittedFile)
      (VDict so).
Proof.
  intros Hshape Heval.
  assert (Hold : ∃ old, default (VStr "") (so !! "eval") = VStr old).
  { destruct (so !! "eval") as [e|]; simpl; [|eauto].
    specialize (Heval e eq_refl). destruct e; try discriminate. eauto. }
  destruct Hold as [old Hold].
  pose proof (proj2 (setdefault_path_Ok set_useActionPermittedFile
                       ["global_vars"; "TestData"]
                       set_useActionPermittedFile_Ok (VDict so)) Hshape) as Hok.
  assert (HA : ∀ m : gmap string value,
            setdefault_path ["global_vars"; "TestData"]
              set_useActionPermittedFile (VDict m)
            = let '(c, r) := setdefault_path ["TestData"] set_useActionPermittedFile
                               (default (VDict ∅) (m !! "global_vars")) in
              (VDict (<["global_vars" := c]> m), r)) by reflexivity.
  destruct (setdefault_path ["TestData"] set_useActionPermittedFile
              (default (VDict ∅) (so !! "global_vars"))) as [g r] eqn:Hg.
  assert (HAso : setdefault_path ["global_vars"; "TestData"]
                   set_useActionPermittedFile (VDict so)
                 = (VDict (<["global_vars" := g]> so), r)).
  { by rewrite HA, Hg. }
  rewrite HAso in Hok. cbn [snd] in Hok. subst r.
  unfold seq. rewrite HAso, (append_eval_str so old Hold).
  rewrite (append_eval_str (<["global_vars" := g]> so) old)
    by (by rewrite lookup_insert_ne).
  rewrite HA, lookup_insert_ne, Hg by done.
  by rewrite insert_insert_ne.
Qed.

(** X15.  On a suite with mappings along the path to [TestData] whose
    [eval], when there is one, is a string, update_test_data and
    update_shell can be run in either order: the suite and the result are
    the same. *)
Theorem update_test_data_update_shell_commute suite :
  mappings_along TestData_path suite = true →
  (∀ e, lookup_path eval_path suite = Some e → is_str e = true) →
  seq update_test_data update_shell suite
  = seq update_shell update_test_data suite.
Proof.
  intros Hshape Heval.
  set (A := setdefault_path ["global_vars"; "TestData"] set_useActionPermittedFile).
  assert (Hutd : ∀ v, update_test_data v = setdefault_path shell_options_path A v).
  { intros v. rewrite update_test_data_unfold.
    apply (setdefault_path_app shell_options_path ["global_vars"; "TestData"]). }
  transitivity (setdefault_path shell_options_path (seq A append_eval) suite).
  { rewrite <- setdefault_path_seq. unfold seq. rewrite Hutd.
    destruct (setdefault_path shell_options_path A suite) as [s1 [[]|x]]; [|done].
    apply update_shell_unfold. }
  transitivity (setdefault_path shell_options_path (seq append_eval A) suite).
  2:{ rewrite <- setdefault_path_seq. unfold seq. rewrite update_shell_unfold.
      destruct (setdefault_path shell_options_path append_eval suite)
        as [s1 [[]|x]]; [|done].
      symmetry. apply Hutd. }
  assert (Hso : mappings_along shell_options_path suite = true).
  { by apply (mappings_along_prefix shell_options_path ["global_vars"; "TestData"]). }
  destruct (setdefault_path_run _ _ Hso) as (so & Hreach & _).
  apply (setdefault_path_ext _ _ _ _ so Hso Hreach).
  apply TestData_eval_commute.
  - by apply (mappings_along_reached shell_options_path
                ["global_vars"; "TestData"] suite).
  - intros e He. apply Heval. unfold eval_path. rewrite lookup_path_app.
    destruct Hreach as [->|[_ ->]]; [|by rewrite lookup_empty in He].
    simpl. by rewrite He.
Qed.

Lemma update_test_data_update_shell_commute_witness :
  seq update_test_data update_shell (VDict {[ "executor" := VDict ∅ ]})
  = seq update_shell update_test_data (VDict {[ "executor" := VDict ∅ ]}).
Proof.
  apply update_test_data_update_shell_commute.
  - reflexivity.
  - intros e H. vm_compute in H. discriminate.
Defined.
